(** * Large-number string arithmetic of [euler/numeric.py]

    A shallow embedding of the classes [LargeNumberOpUtils],
    [LargeNumberFirstDegreeOpUtils], [LargeNumberAddOpUtils],
    [LargeNumberSubtractOpUtils], [LargeNumberMulOpUtils] and
    [LargeNumberOpsHelper], together with the Python primitives they are
    written with.  Python [int] is unbounded and is modelled by [Z]; [str] is
    modelled by [string]; a raised exception is an explicit [Raise] result.
    The number-theory helpers of the same module ([sum_of_natural_numbers],
    [sum_of_squares_of_natural_numbers], [get_factors], [num_combinations])
    and [is_prime] of [euler/primes.py] follow the classes. *)

From Stdlib Require Import ZArith List String Ascii Bool Lia.
From Stdlib Require Import Zdivisibility Sorted Factorial.
From Stdlib Require Import DecimalString DecimalFacts DecimalPos.
Import ListNotations.

Open Scope string_scope.
Open Scope Z_scope.

(** ** Exceptions *)

Inductive exn : Type :=
| ValueError_sign      (* ValueError("Provide positive numbers in the subtraction routine.") *)
| ValueError_literal   (* ValueError: invalid literal for int() with base 10 *)
| ValueError_range     (* ValueError: range() arg 3 must not be zero *)
| IndexError           (* IndexError: string index out of range *)
| TypeError_reduce     (* TypeError: reduce() of empty iterable with no initial value *)
| ZeroDivisionError
| OverflowError        (* OverflowError: integer division result too large for a float *)
| NotImplementedError.

Inductive result (A : Type) : Type :=
| Ok (a : A)
| Raise (e : exn).

Arguments Ok {A} a.
Arguments Raise {A} e.

Definition bind {A B : Type} (m : result A) (k : A -> result B) : result B :=
  match m with
  | Ok a => k a
  | Raise e => Raise e
  end.

Notation "x <- m ;; k" := (bind m (fun x => k))
  (at level 61, m at next level, right associativity).
Notation "' p <- m ;; k" := (bind m (fun x => match x with p => k end))
  (at level 61, p pattern, m at next level, right associativity).

(** A comprehension [[f x for x in l]] whose body may raise: the elements are
    evaluated left to right and the first exception ends the loop. *)
Fixpoint mapM {A B : Type} (f : A -> result B) (l : list A) : result (list B) :=
  match l with
  | [] => Ok []
  | x :: l' => y <- f x ;; ys <- mapM f l' ;; Ok (y :: ys)
  end.

(** A [for] loop threading a state, whose body may raise. *)
Fixpoint foldM {A S : Type} (f : S -> A -> result S) (l : list A) (s : S) : result S :=
  match l with
  | [] => Ok s
  | x :: l' => s' <- f s x ;; foldM f l' s'
  end.

(** [functools.reduce(f, l)] without an initial value. *)
Definition py_reduce {A : Type} (f : A -> A -> result A) (l : list A) : result A :=
  match l with
  | [] => Raise TypeError_reduce
  | x :: l' => foldM f l' x
  end.

(** [enumerate(l)]. *)
Fixpoint enumerate_from {A : Type} (i : Z) (l : list A) : list (Z * A) :=
  match l with
  | [] => []
  | x :: l' => (i, x) :: enumerate_from (i + 1) l'
  end.

Definition enumerate {A : Type} (l : list A) : list (Z * A) := enumerate_from 0 l.

(** ** Python strings *)

Definition len (s : string) : Z := Z.of_nat (String.length s).

(** [s.lstrip('0')]. *)
Fixpoint lstrip0 (s : string) : string :=
  match s with
  | String "0" s' => lstrip0 s'
  | _ => s
  end.

(** [s.startswith('-')]. *)
Definition startswith_minus (s : string) : bool :=
  match s with
  | String "-" _ => true
  | _ => false
  end.

(** [n * s] for an integer [n] and a string [s]; empty when [n <= 0]. *)
Fixpoint str_repeat (n : nat) (s : string) : string :=
  match n with
  | O => ""
  | S n' => s ++ str_repeat n' s
  end.

Definition str_mul (n : Z) (s : string) : string := str_repeat (Z.to_nat n) s.

(** [s.zfill(width)]: zeros are inserted on the left up to [width]
    characters, after a leading sign character if there is one. *)
Definition zfill (s : string) (width : Z) : string :=
  if width <=? len s then s
  else
    let fill := str_mul (width - len s) "0" in
    match s with
    | String "-" s' => String "-" (fill ++ s')
    | String "+" s' => String "+" (fill ++ s')
    | _ => fill ++ s
    end.

(** [s[i:j]], with Python's treatment of negative and out-of-range bounds. *)
Definition slice_bound (n k : Z) : Z :=
  if k <? 0 then Z.max (k + n) 0 else Z.min k n.

Definition slice (s : string) (i j : Z) : string :=
  let lo := slice_bound (len s) i in
  let hi := slice_bound (len s) j in
  substring (Z.to_nat lo) (Z.to_nat (hi - lo)) s.

(** [s[i]]. *)
Definition index (s : string) (i : Z) : result string :=
  let k := if i <? 0 then i + len s else i in
  if (0 <=? k) && (k <? len s)
  then match String.get (Z.to_nat k) s with
       | Some c => Ok (String c "")
       | None => Raise IndexError
       end
  else Raise IndexError.

(** [''.join(l)]. *)
Definition join (l : list string) : string := String.concat "" l.

(** [str(n)] for an integer. *)
Definition py_str (n : Z) : string := NilZero.string_of_int (Z.to_int n).

(** [int(s)].  The literals that occur in this program are runs of ASCII
    decimal digits with an optional sign; any other text is reported as an
    invalid literal.  Python's [int] accepts more: white space around the
    literal, underscores between digits and digits outside ASCII; and from
    version 3.11 on it refuses literals of more than 4300 digits.  The model
    is Python's [int] on the strings of [decimal_literal] below, and both
    reject a string that holds an ASCII letter or a sign after a digit. *)
Definition digit_of_ascii (c : ascii) : option Z :=
  let n := Z.of_nat (nat_of_ascii c) in
  if (48 <=? n) && (n <=? 57) then Some (n - 48) else None.

Fixpoint parse_digits (acc : Z) (s : string) : option Z :=
  match s with
  | "" => Some acc
  | String c s' =>
      match digit_of_ascii c with
      | Some d => parse_digits (10 * acc + d) s'
      | None => None
      end
  end.

Definition parse_nonempty_digits (s : string) : result Z :=
  match s with
  | "" => Raise ValueError_literal
  | _ => match parse_digits 0 s with
         | Some n => Ok n
         | None => Raise ValueError_literal
         end
  end.

Definition py_int (s : string) : result Z :=
  match s with
  | String "-" s' => n <- parse_nonempty_digits s' ;; Ok (- n)
  | String "+" s' => parse_nonempty_digits s'
  | _ => parse_nonempty_digits s
  end.

(** [range(start, stop, step)]. *)
Definition py_range (start stop step : Z) : result (list Z) :=
  if step =? 0 then Raise ValueError_range
  else
    let count :=
      if 0 <? step then (stop - start + step - 1) / step
      else (start - stop - step - 1) / (- step) in
    Ok (map (fun k => start + Z.of_nat k * step) (seq 0 (Z.to_nat count))).

(** ** Python's true division of integers

    [a / b] on two [int]s is the exact quotient rounded to the nearest IEEE
    binary64 value, ties to even; [int(x)] then truncates towards zero.  A
    finite binary64 magnitude is [m * 2^e] with [m <= 2^53] and
    [-1074 <= e]. *)

Definition round_half_even (num den : Z) : Z :=
  let q := num / den in
  let r := num mod den in
  if 2 * r <? den then q
  else if den <? 2 * r then q + 1
  else if Z.even q then q else q + 1.

(** [floor (log2 (a / b))] for positive [a] and [b]. *)
Definition quot_exponent (a b : Z) : Z :=
  let d := Z.log2 a - Z.log2 b in
  if a * 2 ^ Z.max 0 (- d) <? b * 2 ^ Z.max 0 d then d - 1 else d.

(** The binary64 value nearest to [a / b], as mantissa and exponent. *)
Definition float_quotient (a b : Z) : Z * Z :=
  let e := Z.max (quot_exponent a b - 52) (-1074) in
  (round_half_even (a * 2 ^ Z.max 0 (- e)) (b * 2 ^ Z.max 0 e), e).

Definition float_overflows (m e : Z) : bool :=
  (971 <? e) || ((e =? 971) && (2 ^ 53 <=? m)).

(** [int(m * 2^e)] for a non-negative mantissa. *)
Definition float_trunc (m e : Z) : Z :=
  if 0 <=? e then m * 2 ^ e else m / 2 ^ (- e).

(** [int(a / b)]. *)
Definition int_truediv (a b : Z) : result Z :=
  if b =? 0 then Raise ZeroDivisionError
  else if a =? 0 then Ok 0
  else
    let '(m, e) := float_quotient (Z.abs a) (Z.abs b) in
    if float_overflows m e then Raise OverflowError
    else Ok (Z.sgn a * Z.sgn b * float_trunc m e).

(** [a % b]. *)
Definition py_mod (a b : Z) : result Z :=
  if b =? 0 then Raise ZeroDivisionError else Ok (a mod b).

(** ** [LargeNumberOpUtils]

    The class attributes [_chunk_size] and [_mod] are set by the subclasses;
    the class methods take the class as their first argument. *)

Record OpUtilsClass : Type := {
  _chunk_size : Z;
  _mod : Z
}.

Section LargeNumberOpUtils.

Variable cls : OpUtilsClass.

Definition compute_divisible_len (str_len : Z) : result Z :=
  quotient <- int_truediv str_len (_chunk_size cls) ;;
  Ok ((quotient + 1) * _chunk_size cls).

Definition _compute_target_len (len_a len_b : Z) : result Z :=
  let max_len := Z.max len_a len_b in
  compute_divisible_len max_len.

Definition _pad_split_and_reverse (num : string) (target_len : Z)
  : result (list string) :=
  let num := zfill num target_len in
  idx <- py_range 0 target_len (_chunk_size cls) ;;
  let chunks := map (fun i => slice num i (i + _chunk_size cls)) idx in
  Ok (rev chunks).

(** [map(int, a)] is lazy: each element is converted when the consumer asks
    for it, so the elements of the result are computations. *)
Definition _make_chunks (a b : string)
  : result (list (result Z) * list (result Z)) :=
  let a := lstrip0 a in
  let b := lstrip0 b in
  target_len <- _compute_target_len (len a) (len b) ;;
  a <- _pad_split_and_reverse a target_len ;;
  b <- _pad_split_and_reverse b target_len ;;
  Ok (map py_int a, map py_int b).

(** *** [LargeNumberFirstDegreeOpUtils.operate], for the [_op_chunks] of a
    subclass *)

Variable _op_chunks : Z -> Z -> result (Z * Z).

Definition operate (a b : string) : result string :=
  '(a, b) <- _make_chunks a b ;;
  result <- mapM (fun '(chunk1, chunk2) =>
                    chunk1 <- chunk1 ;;
                    chunk2 <- chunk2 ;;
                    _op_chunks chunk1 chunk2)
                 (combine a b) ;;
  let totals := (map fst result ++ [0])%list in
  let carries := 0 :: map snd result in
  let c := map (fun '(total, carry) =>
                  zfill (py_str (total + carry)) (_chunk_size cls))
               (combine totals carries) in
  Ok (lstrip0 (join (rev c))).

End LargeNumberOpUtils.

Definition LargeNumberFirstDegreeOpUtils : OpUtilsClass :=
  {| _chunk_size := 18; _mod := 10 ^ 18 |}.

(** The base class leaves [_op_chunks] to its subclasses. *)
Definition LargeNumberFirstDegreeOpUtils_op_chunks (chunk1 chunk2 : Z)
  : result (Z * Z) :=
  Raise NotImplementedError.

Module LargeNumberAddOpUtils.

Definition cls := LargeNumberFirstDegreeOpUtils.

Definition _op_chunks (chunk1 chunk2 : Z) : result (Z * Z) :=
  let total := chunk1 + chunk2 in
  carry <- int_truediv total (_mod cls) ;;
  total <- py_mod total (_mod cls) ;;
  Ok (total, carry).

Definition add (a b : string) : result string :=
  operate cls _op_chunks a b.

End LargeNumberAddOpUtils.

Module LargeNumberSubtractOpUtils.

Definition cls := LargeNumberFirstDegreeOpUtils.

Definition _check_non_negative (num : string) : result unit :=
  if startswith_minus num then Raise ValueError_sign else Ok tt.

Definition _is_smaller (a b : string) : result bool :=
  let a := lstrip0 a in
  let b := lstrip0 b in
  if len b >? len a then Ok true
  else if len a =? len b then
    b0 <- index b 0 ;;
    b0 <- py_int b0 ;;
    a0 <- index a 0 ;;
    a0 <- py_int a0 ;;
    if b0 >? a0 then Ok true else Ok false
  else Ok false.

Definition _op_chunks (chunk1 chunk2 : Z) : result (Z * Z) :=
  if chunk1 <? chunk2
  then Ok (chunk1 + 10 ^ _chunk_size cls - chunk2, -1)
  else Ok (chunk1 - chunk2, 0).

Definition subtract (a b : string) : result string :=
  _ <- _check_non_negative a ;;
  _ <- _check_non_negative b ;;
  smaller <- _is_smaller a b ;;
  if (smaller : bool)
  then r <- operate cls _op_chunks b a ;; Ok ("-" ++ r)
  else operate cls _op_chunks a b.

End LargeNumberSubtractOpUtils.

Module LargeNumberMulOpUtils.

Definition cls : OpUtilsClass := {| _chunk_size := 9; _mod := 10 ^ 9 |}.

Definition _mul_with_chunk (num : list string) (digit : Z) : result string :=
  '(c, carry) <-
    foldM (fun '(c, carry) chunk =>
             chunk <- py_int chunk ;;
             let chunk_res := chunk * digit + carry in
             kept <- py_mod chunk_res (_mod cls) ;;
             let c := (c ++ [zfill (py_str kept) (_chunk_size cls)])%list in
             carry <- int_truediv chunk_res (_mod cls) ;;
             Ok (c, carry))
          num ([], 0) ;;
  let c := join (rev c) in
  Ok (lstrip0 (py_str carry ++ c)).

Definition multiply (a b : string) : result string :=
  target_len <- _compute_target_len cls (len a) (len b) ;;
  a <- _pad_split_and_reverse cls a target_len ;;
  b <- _pad_split_and_reverse cls b target_len ;;
  chunk_wise_res <- mapM (fun chunk =>
                            chunk <- py_int chunk ;;
                            _mul_with_chunk b chunk) a ;;
  let chunk_wise_res :=
    map (fun '(i, item) => item ++ str_mul (i * _chunk_size cls) "0")
        (enumerate chunk_wise_res) in
  py_reduce LargeNumberAddOpUtils.add chunk_wise_res.

End LargeNumberMulOpUtils.

Module LargeNumberOpsHelper.

Definition large_number_pow (num exp : string) : result string :=
  n <- py_int exp ;;
  py_reduce LargeNumberMulOpUtils.multiply (repeat num (Z.to_nat n)).

End LargeNumberOpsHelper.

Definition large_number_sum (a b : string) : result string :=
  LargeNumberAddOpUtils.add a b.

Definition large_number_diff (a b : string) : result string :=
  LargeNumberSubtractOpUtils.subtract a b.

Definition large_number_mul (a b : string) : result string :=
  LargeNumberMulOpUtils.multiply a b.

Definition large_number_pow (num exp : string) : result string :=
  LargeNumberOpsHelper.large_number_pow num exp.

(** ** The number-theory helpers of [euler/numeric.py] and [euler/primes.py]

    Besides the exceptions of the built-in operations, these functions raise
    [ValueError]s of their own and call [math.sqrt]. *)

Inductive helper_exn : Type :=
| ValueError_non_negative  (* ValueError("Provide a non-negative natural number.") *)
| ValueError_natural       (* ValueError("Provide a natural number.") *)
| ValueError_math_domain   (* ValueError: math domain error *)
| Builtin (e : exn).       (* an exception of a built-in operation *)

Inductive outcome (A : Type) : Type :=
| Returns (a : A)
| Raises (e : helper_exn).

Arguments Returns {A} a.
Arguments Raises {A} e.

Definition outcome_bind {A B : Type} (m : outcome A) (k : A -> outcome B)
  : outcome B :=
  match m with
  | Returns a => k a
  | Raises e => Raises e
  end.

Notation "x <~ m ;; k" := (outcome_bind m (fun x => k))
  (at level 61, m at next level, right associativity).

Definition lift {A : Type} (m : result A) : outcome A :=
  match m with
  | Ok a => Returns a
  | Raise e => Raises (Builtin e)
  end.

(** *** [math.sqrt]

    [math.sqrt(n)] converts the [int] to the nearest binary64 value (ties to
    even) and returns the correctly rounded square root of that value;
    [int(x)] then truncates. *)

(** [float(n)] for a positive [n], as mantissa and exponent. *)
Definition float_of_int (n : Z) : Z * Z :=
  let l := Z.log2 n in
  if l <? 53 then (n, 0)
  else let e := l - 52 in (round_half_even n (2 ^ e), e).

(** The binary64 value nearest to the square root of [m * 2^e], for a
    positive mantissa [m <= 2^53] and [e >= 0]: the mantissa of the root is
    the rounded integer square root of the operand scaled to 105 or 106
    bits. *)
Definition float_sqrt (m e : Z) : Z * Z :=
  let E := (Z.log2 m + e) / 2 in
  let t := 52 - E in
  let N := m * 2 ^ (e + 2 * t) in
  let r := Z.sqrt N in
  (if r <? N - r * r then r + 1 else r, - t).

(** [int(sqrt(n))]. *)
Definition int_sqrt (n : Z) : outcome Z :=
  if n <? 0 then Raises ValueError_math_domain
  else if n =? 0 then Returns 0
  else
    let '(m, e) := float_of_int n in
    if float_overflows m e then Raises (Builtin OverflowError)
    else let '(s, e') := float_sqrt m e in Returns (float_trunc s e').

(** *** [euler/numeric.py] *)

Definition sum_of_natural_numbers (n : Z) : outcome Z :=
  if n <? 0 then Raises ValueError_non_negative
  else lift (int_truediv (n * (n + 1)) 2).

Definition sum_of_squares_of_natural_numbers (n : Z) : outcome Z :=
  if n <? 0 then Raises ValueError_non_negative
  else lift (int_truediv (n * (n + 1) * (2 * n + 1)) 6).

(** A [set] of integers, kept as a list without repetitions; its iteration
    order plays no role below because the only reader sorts it. *)
Definition set_add (x : Z) (s : list Z) : list Z :=
  if existsb (Z.eqb x) s then s else x :: s.

(** [sorted(l)] on integers. *)
Fixpoint sorted_insert (x : Z) (l : list Z) : list Z :=
  match l with
  | [] => [x]
  | y :: l' => if x <=? y then x :: l else y :: sorted_insert x l'
  end.

Definition py_sorted (l : list Z) : list Z := fold_right sorted_insert [] l.

Definition get_factors (num : Z) : outcome (list Z) :=
  if num <? 0 then Raises ValueError_natural
  else
    upper_bound <~ int_sqrt num ;;
    lift (idx <- py_range 2 (upper_bound + 1) 1 ;;
          factors <- foldM (fun factors i =>
                              r <- py_mod num i ;;
                              if r =? 0
                              then let factors := set_add i factors in
                                   q <- int_truediv num i ;;
                                   Ok (set_add q factors)
                              else Ok factors)
                           idx [] ;;
          Ok (py_sorted factors)).

(** [reduce(lambda a, b: a * b, range(start, stop))]. *)
Definition range_product (start stop : Z) : result Z :=
  idx <- py_range start stop 1 ;;
  py_reduce (fun a b => Ok (a * b)) idx.

Definition num_combinations (n r : Z) : result Z :=
  numerator <- range_product (n - r + 1) (n + 1) ;;
  denominator <- range_product 1 (r + 1) ;;
  int_truediv numerator denominator.

(** *** [euler/primes.py] *)

(** The loop of [is_prime]: [False] at the first divisor, [True] when the
    range is exhausted. *)
Fixpoint no_divisor_in (num : Z) (idx : list Z) : result bool :=
  match idx with
  | [] => Ok true
  | i :: idx' =>
      r <- py_mod num i ;;
      if r =? 0 then Ok false else no_divisor_in num idx'
  end.

Definition is_prime (num : Z) : outcome bool :=
  if num <? 2 then Returns false
  else if (num =? 2) || (num =? 3) then Returns true
  else if num mod 2 =? 0 then Returns false
  else
    upper_bound <~ int_sqrt num ;;
    lift (idx <- py_range 3 (upper_bound + 1) 2 ;;
          no_divisor_in num idx).

(** ** Vocabulary of the specification *)

(** A magnitude string: ASCII decimal digits only. *)
Definition is_digit (c : ascii) : bool :=
  match digit_of_ascii c with
  | Some _ => true
  | None => false
  end.

Fixpoint all_digits (s : string) : bool :=
  match s with
  | "" => true
  | String c s' => is_digit c && all_digits s'
  end.

(** The number a magnitude string denotes (a character that is not a digit
    counts as 0). *)
Fixpoint value_from (acc : Z) (s : string) : Z :=
  match s with
  | "" => acc
  | String c s' =>
      value_from (10 * acc + match digit_of_ascii c with Some d => d | None => 0 end) s'
  end.

Definition value (s : string) : Z := value_from 0 s.

(** A well-formed BigDecimal: an optional leading ['-'], then at least one
    decimal digit and no leading zero (zero itself is ["0"]).  A sign
    anywhere else, or any other character, makes the string ill-formed. *)
Definition no_leading_zero (s : string) : bool :=
  match s with
  | String "0" (String _ _) => false
  | _ => true
  end.

Definition well_formed_magnitude (s : string) : bool :=
  match s with
  | "" => false
  | _ => all_digits s && no_leading_zero s
  end.

Definition well_formed (s : string) : bool :=
  match s with
  | String "-" s' => well_formed_magnitude s'
  | _ => well_formed_magnitude s
  end.

(** [t] is the smallest multiple of [w] that is at least [n]. *)
Definition smallest_multiple_ge (w n t : Z) : Prop :=
  (w | t) /\ n <= t /\ forall t', (w | t') -> n <= t' -> t <= t'.

(** [t] is the smallest multiple of [w] that is strictly above [n]. *)
Definition smallest_multiple_gt (w n t : Z) : Prop :=
  (w | t) /\ n < t /\ forall t', (w | t') -> n < t' -> t <= t'.

(** The largest length and width for which the quotient taken through a
    binary64 value is still the integer quotient. *)
Definition exact_quotient_bound : Z := 2 ^ 52.

(** The chunk sums for which the binary64 quotient by [10^18] is rounded up
    to the next integer: the last 55 values below [10^18] and the last 111
    values below [2 * 10^18]. *)
Definition carry_rounds_up (total : Z) : bool :=
  ((10 ^ 18 - 55 <=? total) && (total <? 10 ^ 18)) || (2 * 10 ^ 18 - 111 <=? total).

(** The exceptions of Python's class [ValueError]: the sign error of
    [subtract] is one, and so are the errors [int] and [range] raise for a
    bad argument.  A caller that catches [ValueError] sees them alike. *)
Definition is_value_error (e : exn) : bool :=
  match e with
  | ValueError_sign | ValueError_literal | ValueError_range => true
  | _ => false
  end.

(** A decimal literal: an optional sign, then at least one ASCII decimal
    digit, at most 4300 characters in all (a length every Python version
    converts).  These are the strings on which [py_int] is Python's [int]. *)
Definition nonempty_digits (s : string) : bool :=
  match s with
  | "" => false
  | _ => all_digits s
  end.

Definition decimal_literal (s : string) : bool :=
  (len s <=? 4300) &&
  match s with
  | String "-" s' => nonempty_digits s'
  | String "+" s' => nonempty_digits s'
  | _ => nonempty_digits s
  end.

(** The integer a decimal literal denotes. *)
Definition literal_value (s : string) : Z :=
  match s with
  | String "-" s' => - value s'
  | String "+" s' => value s'
  | _ => value s
  end.

(** ** Definitions used to state the properties *)

(** The first [n] characters of a string, and the string without them. *)
Fixpoint take (n : nat) (s : string) : string :=
  match n, s with
  | S n', String c s' => String c (take n' s')
  | _, _ => ""
  end.

Fixpoint drop (n : nat) (s : string) : string :=
  match n, s with
  | S n', String _ s' => drop n' s'
  | _, _ => s
  end.

(** The digit a character stands for, 0 for any other character. *)
Definition digit_value (c : ascii) : Z :=
  match digit_of_ascii c with Some d => d | None => 0 end.

(** The [K] consecutive windows of [wn] characters of a string, first window
    first. *)
Definition chunks_at (wn : nat) (s : string) (K : nat) : list string :=
  map (fun j => take wn (drop (j * wn) s)) (seq 0 K).

(** The number written by a list of base-[B] digits, most significant first. *)
Fixpoint eval_msb (B : Z) (l : list Z) : Z :=
  match l with
  | [] => 0
  | v :: l' => v * B ^ Z.of_nat (List.length l') + eval_msb B l'
  end.

(** The string [operate] assembles from the per-chunk results, least
    significant chunk first. *)
Definition assemble (cls : OpUtilsClass) (result : list (Z * Z)) : string :=
  let totals := (map fst result ++ [0])%list in
  let carries := 0 :: map snd result in
  let c := map (fun '(total, carry) =>
                  zfill (py_str (total + carry)) (_chunk_size cls))
               (combine totals carries) in
  lstrip0 (join (rev c)).

(** The chunk values of the two operands of [operate], most significant
    chunk first. *)
Definition chunk_count (cls : OpUtilsClass) (a b : string) : nat :=
  Z.to_nat (Z.max (len (lstrip0 a)) (len (lstrip0 b)) / _chunk_size cls + 1).

Definition chunk_values (cls : OpUtilsClass) (K : nat) (s : string) : list Z :=
  map value (chunks_at (Z.to_nat (_chunk_size cls))
                       (zfill (lstrip0 s) (Z.of_nat K * _chunk_size cls)) K).

(** Whether the first non-zero entry of a list is negative. *)
Fixpoint first_nonzero_negative (l : list Z) : bool :=
  match l with
  | [] => false
  | n :: l' => if n =? 0 then first_nonzero_negative l' else n <? 0
  end.

(** The numbers [operate] writes out, most significant first: every chunk's
    total plus the carry of the chunk below it, under a leading chunk that
    only holds the topmost carry.  [M] lists the per-chunk results most
    significant first, [t0] is the total above them and [cend] the carry
    into the lowest chunk. *)
Fixpoint written_chunks (t0 : Z) (M : list (Z * Z)) (cend : Z) : list Z :=
  match M with
  | [] => [t0 + cend]
  | (t, cr) :: M' => (t0 + cr) :: written_chunks t M' cend
  end.

(** Lexicographic comparison of two chunk lists given as a list of pairs. *)
Fixpoint lex_lt (M : list (Z * Z)) : bool :=
  match M with
  | [] => false
  | (x, y) :: M' => if x <? y then true else if x =? y then lex_lt M' else false
  end.

(** The result of [LargeNumberSubtractOpUtils._op_chunks]. *)
Definition subtract_chunk (p : Z * Z) : Z * Z :=
  let '(x, y) := p in
  if x <? y then (x + 10 ^ 18 - y, -1) else (x - y, 0).

(** The pair the addition [_op_chunks] computes when the quotient is not
    rounded up. *)
Definition add_chunk (p : Z * Z) : Z * Z :=
  let '(x, y) := p in ((x + y) mod 10 ^ 18, (x + y) / 10 ^ 18).

(** A computation that cannot end in the subtraction routine's sign error. *)
Definition no_sign_error {A : Type} (m : result A) : Prop :=
  m <> Raise ValueError_sign.

(** [1 + 2 + ... + n] and [1^2 + 2^2 + ... + n^2]. *)
Fixpoint sum_upto (n : nat) : Z :=
  match n with
  | O => 0
  | S n' => sum_upto n' + Z.of_nat n
  end.

Fixpoint sum_squares_upto (n : nat) : Z :=
  match n with
  | O => 0
  | S n' => sum_squares_upto n' + Z.of_nat n * Z.of_nat n
  end.

(** The binomial coefficient, by Pascal's rule. *)
Fixpoint binomial (n k : nat) {struct n} : Z :=
  match k with
  | O => 1
  | S k' =>
      match n with
      | O => 0
      | S n' => binomial n' k' + binomial n' k
      end
  end.

(** [a * (a + 1) * ... * (a + k - 1)]. *)
Fixpoint product_from (a : Z) (k : nat) : Z :=
  match k with
  | O => 1
  | S k' => product_from a k' * (a + Z.of_nat k')
  end.

(** The string the large-number routines return for a non-negative number:
    its decimal digits without leading zeros, which is the empty string for
    zero. *)
Definition stripped_decimal (n : Z) : string := lstrip0 (py_str n).

(** Whether, reading the chunk pairs from the most significant end, no chunk
    of the first operand is smaller than the second operand's right below a
    pair of equal chunks ([above_equal] tells whether the chunks above the
    list are equal; above the topmost pair [operate] places an empty chunk
    for both). *)
Fixpoint borrow_absorbed (above_equal : bool) (M : list (Z * Z)) : bool :=
  match M with
  | [] => true
  | (x, y) :: M' => negb (above_equal && (x <? y)) && borrow_absorbed (x =? y) M'
  end.

(** * Properties *)

(** Case analysis on the eight bits of a character; all but a few of the 256
    cases are closed by computation. *)
Ltac ascii_cases c := destruct c as [[] [] [] [] [] [] [] []].

(** ** Strings *)

Lemma length_append (s1 s2 : string) :
  String.length (s1 ++ s2) = (String.length s1 + String.length s2)%nat.
Proof.
  induction s1 as [|c s1 IH]; simpl; [reflexivity|].
  now rewrite IH.
Qed.

Lemma length_str_repeat_char (n : nat) (c : ascii) :
  String.length (str_repeat n (String c "")) = n.
Proof.
  induction n as [|n IH]; simpl; [reflexivity|].
  now rewrite IH.
Qed.

Lemma len_nonneg (s : string) : 0 <= len s.
Proof. unfold len. lia. Qed.

Lemma len_zfill (s : string) (width : Z) :
  len s <= width -> len (zfill s width) = width.
Proof.
  intros Hle. unfold zfill.
  destruct (Z.leb_spec width (len s)) as [Hge|Hlt]; [lia|].
  assert (Hfill : forall t, len (str_mul (width - len s) "0" ++ t) = width - len s + len t).
  { intros t. unfold len, str_mul.
    rewrite length_append, length_str_repeat_char. unfold len in Hlt. lia. }
  destruct s as [|c s']; [rewrite Hfill; lia|].
  assert (Hs : len (String c s') = 1 + len s') by (unfold len; simpl String.length; lia).
  assert (Hsign : forall x, len (String x (str_mul (width - len (String c s')) "0" ++ s')) = width).
  { intros x.
    transitivity (1 + len (str_mul (width - len (String c s')) "0" ++ s')).
    - unfold len. simpl String.length. lia.
    - rewrite Hfill. lia. }
  ascii_cases c; first [ apply Hsign | rewrite Hfill; lia ].
Qed.

Lemma substring_take_drop (n m : nat) (s : string) :
  substring n m s = take m (drop n s).
Proof.
  revert n m. induction s as [|c s IH]; intros n m.
  - destruct n, m; reflexivity.
  - destruct n as [|n].
    + destruct m as [|m]; [reflexivity|]. simpl. now rewrite IH.
    + simpl. apply IH.
Qed.

Lemma take_drop_append (n : nat) (s : string) : take n s ++ drop n s = s.
Proof.
  revert s. induction n as [|n IH]; intros [|c s]; simpl; try reflexivity.
  now rewrite IH.
Qed.

Lemma length_take (n : nat) (s : string) :
  String.length (take n s) = Nat.min n (String.length s).
Proof.
  revert s. induction n as [|n IH]; intros [|c s]; simpl; try reflexivity.
  now rewrite IH.
Qed.

Lemma length_drop (n : nat) (s : string) :
  String.length (drop n s) = (String.length s - n)%nat.
Proof.
  revert s. induction n as [|n IH]; intros [|c s]; simpl; try reflexivity.
  apply IH.
Qed.

Lemma drop_drop (n m : nat) (s : string) : drop n (drop m s) = drop (m + n) s.
Proof.
  revert s. induction m as [|m IH]; intros s; [reflexivity|].
  destruct s as [|c s]; simpl; [now destruct n|]. apply IH.
Qed.

Lemma len_append (s1 s2 : string) : len (s1 ++ s2) = len s1 + len s2.
Proof. unfold len. rewrite length_append. lia. Qed.

Lemma len_String (c : ascii) (s : string) : len (String c s) = 1 + len s.
Proof. unfold len. simpl String.length. lia. Qed.

Lemma append_assoc (s1 s2 s3 : string) : (s1 ++ s2) ++ s3 = s1 ++ (s2 ++ s3).
Proof. induction s1 as [|c s1 IH]; simpl; [reflexivity|]. now rewrite IH. Qed.

Lemma append_empty_r (s : string) : s ++ "" = s.
Proof. induction s as [|c s IH]; simpl; [reflexivity|]. now rewrite IH. Qed.

Lemma join_cons (x : string) (l : list string) : join (x :: l) = x ++ join l.
Proof.
  unfold join. destruct l as [|y l]; cbn [String.concat].
  - now rewrite append_empty_r.
  - reflexivity.
Qed.

(** *** Digit strings and their values *)

Lemma all_digits_append (s1 s2 : string) :
  all_digits (s1 ++ s2) = all_digits s1 && all_digits s2.
Proof.
  induction s1 as [|c s1 IH]; simpl; [reflexivity|].
  now rewrite IH, Bool.andb_assoc.
Qed.

Lemma all_digits_take (n : nat) (s : string) :
  all_digits s = true -> all_digits (take n s) = true.
Proof.
  intros H. rewrite <- (take_drop_append n s), all_digits_append in H.
  now apply Bool.andb_true_iff in H.
Qed.

Lemma all_digits_drop (n : nat) (s : string) :
  all_digits s = true -> all_digits (drop n s) = true.
Proof.
  intros H. rewrite <- (take_drop_append n s), all_digits_append in H.
  now apply Bool.andb_true_iff in H.
Qed.

Lemma digit_of_ascii_range (c : ascii) (d : Z) :
  digit_of_ascii c = Some d -> 0 <= d <= 9.
Proof.
  unfold digit_of_ascii.
  destruct (Z.leb_spec 48 (Z.of_nat (nat_of_ascii c)));
    destruct (Z.leb_spec (Z.of_nat (nat_of_ascii c)) 57); cbn [andb];
    intros [= <-]; lia.
Qed.

Lemma digit_value_range (c : ascii) : 0 <= digit_value c <= 9.
Proof.
  unfold digit_value. destruct (digit_of_ascii c) eqn:E; [|lia].
  eapply digit_of_ascii_range; eauto.
Qed.

Lemma value_from_linear (acc : Z) (s : string) :
  value_from acc s = acc * 10 ^ len s + value s.
Proof.
  unfold value. revert acc. induction s as [|c s IH]; intros acc.
  - cbn. lia.
  - cbn [value_from].
    set (d := match digit_of_ascii c with Some d => d | None => 0 end).
    rewrite (IH (10 * acc + d)), (IH (10 * 0 + d)).
    rewrite len_String, Z.pow_add_r by (pose proof (len_nonneg s); lia).
    change (10 ^ 1) with 10. lia.
Qed.

Lemma value_String (c : ascii) (s : string) :
  value (String c s) = digit_value c * 10 ^ len s + value s.
Proof.
  unfold value at 1. cbn [value_from]. rewrite value_from_linear.
  unfold digit_value. lia.
Qed.

Lemma value_append (s1 s2 : string) :
  value (s1 ++ s2) = value s1 * 10 ^ len s2 + value s2.
Proof.
  induction s1 as [|c s1 IH]; [cbn [append]; change (value "") with 0; lia|].
  cbn [append]. rewrite !value_String, IH, len_append.
  rewrite Z.pow_add_r by apply len_nonneg. lia.
Qed.

Lemma value_range (s : string) : 0 <= value s < 10 ^ len s.
Proof.
  induction s as [|c s IH]; [cbn; lia|].
  rewrite value_String, len_String.
  rewrite Z.pow_add_r by (pose proof (len_nonneg s); lia).
  pose proof (digit_value_range c). change (10 ^ 1) with 10. nia.
Qed.

Lemma parse_digits_value (acc : Z) (s : string) :
  all_digits s = true -> parse_digits acc s = Some (value_from acc s).
Proof.
  revert acc. induction s as [|c s IH]; intros acc H; [reflexivity|].
  cbn in H. apply Bool.andb_true_iff in H as [Hc Hs].
  cbn [parse_digits value_from]. unfold is_digit in Hc.
  destruct (digit_of_ascii c); [apply IH, Hs | discriminate].
Qed.

Lemma is_digit_not_sign (c : ascii) :
  is_digit c = true -> c <> "-"%char /\ c <> "+"%char.
Proof. intros H; split; intros ->; discriminate. Qed.

(** [int(s)] of a non-empty digit string is its value. *)
Lemma py_int_digits (s : string) :
  all_digits s = true -> s <> "" -> py_int s = Ok (value s).
Proof.
  intros Hd Hne. destruct s as [|c s]; [contradiction|].
  assert (Hp : parse_nonempty_digits (String c s) = Ok (value (String c s))).
  { unfold parse_nonempty_digits. now rewrite parse_digits_value. }
  cbn in Hd. apply Bool.andb_true_iff in Hd as [Hc _].
  apply is_digit_not_sign in Hc as [Hm Hp'].
  unfold py_int.
  ascii_cases c; first [exact Hp | contradiction].
Qed.

(** *** Runs of zeros *)

Lemma lstrip0_zeros_append (n : nat) (s : string) :
  lstrip0 (str_repeat n "0" ++ s) = lstrip0 s.
Proof. induction n as [|n IH]; [reflexivity|]. cbn. exact IH. Qed.

Lemma all_digits_zeros (n : nat) : all_digits (str_repeat n "0") = true.
Proof. induction n as [|n IH]; [reflexivity|]. cbn. exact IH. Qed.

Lemma value_zeros_append (n : nat) (s : string) :
  value (str_repeat n "0" ++ s) = value s.
Proof.
  induction n as [|n IH]; [reflexivity|].
  cbn [str_repeat append]. rewrite value_String, IH.
  change (digit_value "0") with 0. lia.
Qed.

Lemma lstrip0_append_zeros (s1 s2 : string) :
  lstrip0 s1 = "" -> lstrip0 (s1 ++ s2) = lstrip0 s2.
Proof.
  induction s1 as [|c s1 IH]; [reflexivity|].
  cbn [append]. intros H.
  ascii_cases c; try discriminate.
  cbn in *. now apply IH.
Qed.

Lemma lstrip0_take (n : nat) (s : string) : lstrip0 s = "" -> lstrip0 (take n s) = "".
Proof.
  revert s. induction n as [|n IH]; intros [|c s] H; try reflexivity.
  ascii_cases c; try discriminate.
  cbn in *. now apply IH.
Qed.

Lemma lstrip0_drop (n : nat) (s : string) : lstrip0 s = "" -> lstrip0 (drop n s) = "".
Proof.
  revert s. induction n as [|n IH]; intros [|c s] H; try reflexivity; try exact H.
  ascii_cases c; try discriminate.
  cbn in *. now apply IH.
Qed.

Lemma lstrip0_empty_digits (s : string) : lstrip0 s = "" -> all_digits s = true.
Proof.
  induction s as [|c s IH]; [reflexivity|]. intros H.
  ascii_cases c; try discriminate.
  cbn in *. now apply IH.
Qed.

Lemma lstrip0_empty_value (s : string) : lstrip0 s = "" -> value s = 0.
Proof.
  induction s as [|c s IH]; [reflexivity|]. intros H.
  ascii_cases c; try discriminate.
  rewrite value_String. cbn in H. rewrite (IH H).
  change (digit_value "0") with 0. lia.
Qed.

(** *** [lstrip('0')] *)

Lemma value_lstrip0 (s : string) : value (lstrip0 s) = value s.
Proof.
  induction s as [|c s IH]; [reflexivity|].
  ascii_cases c; try reflexivity.
  cbn [lstrip0]. rewrite IH, value_String.
  change (digit_value "0") with 0. lia.
Qed.

Lemma all_digits_lstrip0 (s : string) :
  all_digits s = true -> all_digits (lstrip0 s) = true.
Proof.
  induction s as [|c s IH]; [reflexivity|]. intros H.
  ascii_cases c; try exact H.
  cbn [lstrip0]. apply IH. cbn in H. exact H.
Qed.

Lemma len_lstrip0 (s : string) : len (lstrip0 s) <= len s.
Proof.
  induction s as [|c s IH]; [reflexivity|].
  assert (Hs : len s <= len (String c s)) by (rewrite len_String; lia).
  ascii_cases c; cbn [lstrip0]; lia.
Qed.

Lemma lstrip0_head (s : string) (c : ascii) (s' : string) :
  lstrip0 s = String c s' -> c <> "0"%char.
Proof.
  induction s as [|d s IH]; [discriminate|].
  ascii_cases d; cbn [lstrip0];
    try (intros [= <- _]; discriminate).
  exact IH.
Qed.

Lemma lstrip0_not_zero (c : ascii) (s : string) :
  c <> "0"%char -> lstrip0 (String c s) = String c s.
Proof.
  intros H. ascii_cases c; try reflexivity.
  contradiction.
Qed.

(** *** [zfill] on digit strings *)

Lemma zfill_digits (s : string) (width : Z) :
  all_digits s = true -> zfill s width = str_mul (width - len s) "0" ++ s.
Proof.
  intros Hd. unfold zfill.
  destruct (Z.leb_spec width (len s)) as [Hle|Hlt].
  - unfold str_mul. replace (Z.to_nat (width - len s)) with 0%nat by lia. reflexivity.
  - destruct s as [|c s]; [reflexivity|].
    cbn in Hd. apply Bool.andb_true_iff in Hd as [Hc _].
    apply is_digit_not_sign in Hc as [Hm Hp].
    ascii_cases c; first [reflexivity | contradiction].
Qed.

Lemma all_digits_zfill (s : string) (width : Z) :
  all_digits s = true -> all_digits (zfill s width) = true.
Proof.
  intros Hd. rewrite zfill_digits by exact Hd.
  rewrite all_digits_append, Hd. unfold str_mul. now rewrite all_digits_zeros.
Qed.

Lemma value_zfill (s : string) (width : Z) :
  all_digits s = true -> value (zfill s width) = value s.
Proof.
  intros Hd. rewrite zfill_digits by exact Hd. apply value_zeros_append.
Qed.

Lemma lstrip0_zfill (s : string) (width : Z) :
  all_digits s = true -> lstrip0 (zfill s width) = lstrip0 s.
Proof.
  intros Hd. rewrite zfill_digits by exact Hd. apply lstrip0_zeros_append.
Qed.

(** ** True division: when the rounded quotient truncates to the integer
    quotient *)

Lemma round_half_even_cases (num den : Z) :
  0 < den ->
  let q := num / den in
  let r := num mod den in
  round_half_even num den = q \/ (round_half_even num den = q + 1 /\ den <= 2 * r).
Proof.
  intros Hden q r. unfold round_half_even. fold q r.
  destruct (Z.ltb_spec (2 * r) den) as [H1|H1]; [now left|].
  destruct (Z.ltb_spec den (2 * r)) as [H2|H2]; [right; lia|].
  destruct (Z.even q); [now left | right; lia].
Qed.

Lemma quot_exponent_range (a b : Z) :
  let d := Z.log2 a - Z.log2 b in
  d - 1 <= quot_exponent a b <= d.
Proof.
  intros d. unfold quot_exponent. fold d.
  destruct (_ <? _); lia.
Qed.

(** [2 ^ quot_exponent a b <= a / b], written without fractions. *)
Lemma quot_exponent_lower (a b : Z) :
  0 < a -> 0 < b ->
  let E := quot_exponent a b in
  b * 2 ^ Z.max 0 E <= a * 2 ^ Z.max 0 (- E).
Proof.
  intros Ha Hb E. subst E. unfold quot_exponent.
  pose proof (Z.log2_spec a Ha) as [Hla _].
  pose proof (Z.log2_spec b Hb) as [_ Hlb].
  pose proof (Z.log2_nonneg a) as Hna.
  pose proof (Z.log2_nonneg b) as Hnb.
  set (la := Z.log2 a) in *. set (lb := Z.log2 b) in *.
  set (d := la - lb).
  destruct (Z.ltb_spec (a * 2 ^ Z.max 0 (- d)) (b * 2 ^ Z.max 0 d)) as [Hlt|Hge];
    [|exact Hge].
  (* the quotient is below [2 ^ d]: the exponent is [d - 1] *)
  rewrite <- Z.add_1_r in Hlb.
  destruct (Z_lt_le_dec 0 d) as [Hd|Hd].
  - replace (Z.max 0 (d - 1)) with (d - 1) by lia.
    replace (Z.max 0 (- (d - 1))) with 0 by lia.
    rewrite Z.pow_0_r, Z.mul_1_r.
    assert (Hpow : 2 ^ (lb + 1) * 2 ^ (d - 1) = 2 ^ la).
    { rewrite <- Z.pow_add_r by lia. f_equal; unfold d; lia. }
    assert (0 < 2 ^ (d - 1)) by (apply Z.pow_pos_nonneg; lia).
    nia.
  - replace (Z.max 0 (d - 1)) with 0 by lia.
    replace (Z.max 0 (- (d - 1))) with (1 - d) by lia.
    rewrite Z.pow_0_r, Z.mul_1_r.
    assert (Hpow : 2 ^ la * 2 ^ (1 - d) = 2 ^ (lb + 1)).
    { rewrite <- Z.pow_add_r by lia. f_equal; unfold d; lia. }
    assert (0 < 2 ^ (1 - d)) by (apply Z.pow_pos_nonneg; lia).
    nia.
Qed.

(** Rounding a scaled quotient [a * P / b] to the nearest integer and then
    dividing by the scale [P] gives [a / b] as soon as [b < 2 * P]. *)
Lemma round_then_scale_down (a b P : Z) :
  0 <= a -> 0 < b -> 0 < P -> b < 2 * P ->
  round_half_even (a * P) b / P = a / b.
Proof.
  intros Ha Hb HP HbP.
  pose proof (Z.div_mod a b ltac:(lia)) as Hab.
  pose proof (Z.mod_pos_bound a b Hb) as Hr0.
  pose proof (Z.div_mod (a * P) b ltac:(lia)) as HaP.
  pose proof (Z.mod_pos_bound (a * P) b Hb) as HR.
  pose proof (round_half_even_cases (a * P) b Hb) as Hm. cbv zeta in Hm.
  set (q0 := a / b) in *. set (r0 := a mod b) in *.
  set (Q := a * P / b) in *. set (R := (a * P) mod b) in *.
  set (m := round_half_even (a * P) b) in *.
  assert (Hlow : q0 * P <= Q) by nia.
  assert (Hup : Q < (q0 + 1) * P) by nia.
  symmetry. apply Z.div_unique with (r := m - q0 * P); [|lia].
  left. destruct Hm as [Hm|[Hm HR2]]; [lia|].
  split; [lia|].
  assert (Q + 1 < (q0 + 1) * P \/ Q + 1 = (q0 + 1) * P) as [Hc|Hc] by lia; [lia|].
  exfalso. nia.
Qed.

(** Below [2^52] the detour through a binary64 value is harmless:
    [int(a / b)] is the integer quotient. *)
Lemma int_truediv_exact (a b : Z) :
  0 <= a < exact_quotient_bound -> 0 < b < exact_quotient_bound ->
  int_truediv a b = Ok (a / b).
Proof.
  unfold exact_quotient_bound. intros [Ha0 Ha] [Hb0 Hb].
  unfold int_truediv.
  destruct (Z.eqb_spec b 0) as [?|_]; [lia|].
  destruct (Z.eqb_spec a 0) as [->|Hne]; [now rewrite Z.div_0_l by lia|].
  rewrite (Z.abs_eq a), (Z.abs_eq b) by lia.
  unfold float_quotient.
  pose proof (quot_exponent_range a b) as HE. cbv zeta in HE.
  pose proof (quot_exponent_lower a b ltac:(lia) ltac:(lia)) as HEl. cbv zeta in HEl.
  assert (Hla : 0 <= Z.log2 a < 52).
  { split; [apply Z.log2_nonneg|]. apply Z.log2_lt_pow2; lia. }
  assert (Hlb : 0 <= Z.log2 b < 52).
  { split; [apply Z.log2_nonneg|]. apply Z.log2_lt_pow2; lia. }
  set (E := quot_exponent a b) in *.
  replace (Z.max (E - 52) (-1074)) with (E - 52) by lia.
  replace (Z.max 0 (- (E - 52))) with (52 - E) by lia.
  replace (Z.max 0 (E - 52)) with 0 by lia.
  rewrite Z.pow_0_r, Z.mul_1_r.
  unfold float_overflows, float_trunc.
  destruct (Z.ltb_spec 971 (E - 52)) as [?|_]; [lia|].
  destruct (Z.eqb_spec (E - 52) 971) as [?|_]; [lia|].
  destruct (Z.leb_spec 0 (E - 52)) as [?|_]; [lia|].
  cbn [orb andb].
  replace (- (E - 52)) with (52 - E) by lia.
  replace (Z.sgn a * Z.sgn b) with 1 by (rewrite !Z.sgn_pos by lia; lia).
  rewrite Z.mul_1_l. f_equal.
  assert (HP : 0 < 2 ^ (52 - E)) by (apply Z.pow_pos_nonneg; lia).
  apply round_then_scale_down; try lia.
  (* [b * 2^E <= a < 2^52], hence [b < 2^(52 - E)] *)
  destruct (Z_le_gt_dec 0 E) as [HE0|HE0].
  - replace (Z.max 0 E) with E in HEl by lia.
    replace (Z.max 0 (- E)) with 0 in HEl by lia.
    rewrite Z.pow_0_r, Z.mul_1_r in HEl.
    assert (Hsplit : 2 ^ (52 - E) * 2 ^ E = 2 ^ 52).
    { rewrite <- Z.pow_add_r by lia. f_equal; lia. }
    assert (0 < 2 ^ E) by (apply Z.pow_pos_nonneg; lia).
    nia.
  - replace (Z.max 0 E) with 0 in HEl by lia.
    replace (Z.max 0 (- E)) with (- E) in HEl by lia.
    rewrite Z.pow_0_r, Z.mul_1_r in HEl.
    assert (Hsplit : 2 ^ 52 * 2 ^ (- E) = 2 ^ (52 - E)).
    { rewrite <- Z.pow_add_r by lia. f_equal; lia. }
    assert (0 < 2 ^ (- E)) by (apply Z.pow_pos_nonneg; lia).
    nia.
Qed.

(** [a / b < 2 ^ (quot_exponent a b + 1)], written without fractions. *)
Lemma quot_exponent_upper (a b : Z) :
  0 < a -> 0 < b ->
  let E := quot_exponent a b in
  a * 2 ^ Z.max 0 (- (E + 1)) < b * 2 ^ Z.max 0 (E + 1).
Proof.
  intros Ha Hb E. subst E. unfold quot_exponent.
  pose proof (Z.log2_spec a Ha) as [_ Hla].
  pose proof (Z.log2_spec b Hb) as [Hlb _].
  pose proof (Z.log2_nonneg a) as Hna.
  pose proof (Z.log2_nonneg b) as Hnb.
  set (la := Z.log2 a) in *. set (lb := Z.log2 b) in *.
  set (d := la - lb).
  destruct (Z.ltb_spec (a * 2 ^ Z.max 0 (- d)) (b * 2 ^ Z.max 0 d)) as [Hlt|Hge].
  - replace (d - 1 + 1) with d by lia. exact Hlt.
  - rewrite <- Z.add_1_r in Hla.
    destruct (Z_lt_le_dec 0 (d + 1)) as [Hd|Hd].
    + replace (Z.max 0 (d + 1)) with (d + 1) by lia.
      replace (Z.max 0 (- (d + 1))) with 0 by lia.
      rewrite Z.pow_0_r, Z.mul_1_r.
      assert (Hpow : 2 ^ lb * 2 ^ (d + 1) = 2 ^ (la + 1)).
      { rewrite <- Z.pow_add_r by lia. f_equal; unfold d; lia. }
      assert (0 < 2 ^ (d + 1)) by (apply Z.pow_pos_nonneg; lia).
      nia.
    + replace (Z.max 0 (d + 1)) with 0 by lia.
      replace (Z.max 0 (- (d + 1))) with (- (d + 1)) by lia.
      rewrite Z.pow_0_r, Z.mul_1_r.
      assert (Hpow : 2 ^ (la + 1) * 2 ^ (- (d + 1)) = 2 ^ lb).
      { rewrite <- Z.pow_add_r by lia. f_equal; unfold d; lia. }
      assert (0 < 2 ^ (- (d + 1))) by (apply Z.pow_pos_nonneg; lia).
      nia.
Qed.

(** Rounding the scaled quotient [a * P / b] and dividing by the even scale
    [P] gives [a / b], or one more when [a / b] is within [1 / (2 * P)] of the
    next integer. *)
Lemma round_scaled_quotient (a b P : Z) :
  0 <= a -> 0 < b -> 0 < P -> Z.even P = true ->
  round_half_even (a * P) b / P =
  a / b + (if 2 * (b - a mod b) * P <=? b then 1 else 0).
Proof.
  intros Ha Hb HP Heven.
  pose proof (Z.div_mod a b ltac:(lia)) as Hab.
  pose proof (Z.mod_pos_bound a b Hb) as Hr0.
  pose proof (Z.div_mod (a * P) b ltac:(lia)) as HaP.
  pose proof (Z.mod_pos_bound (a * P) b Hb) as HR.
  set (q0 := a / b) in *. set (r0 := a mod b) in *.
  assert (Hlow : q0 * P <= a * P / b).
  { apply Z.div_le_lower_bound; nia. }
  assert (Hup : a * P / b < (q0 + 1) * P).
  { apply Z.div_lt_upper_bound; nia. }
  destruct (Z.leb_spec (2 * (b - r0) * P) b) as [Hwin|Hwin].
  - (* the scaled quotient is within half a unit of [(q0 + 1) * P] *)
    assert (HQ : a * P / b = (q0 + 1) * P - 1).
    { symmetry. apply Z.div_unique with (r := b - (b - r0) * P); nia. }
    assert (HRv : (a * P) mod b = b - (b - r0) * P).
    { symmetry. apply Z.mod_unique with (q := (q0 + 1) * P - 1); nia. }
    assert (Hm : round_half_even (a * P) b = (q0 + 1) * P).
    { unfold round_half_even. rewrite HQ, HRv.
      destruct (Z.ltb_spec (2 * (b - (b - r0) * P)) b) as [?|_]; [nia|].
      destruct (Z.ltb_spec b (2 * (b - (b - r0) * P))) as [_|_]; [lia|].
      replace (Z.even ((q0 + 1) * P - 1)) with false; [lia|].
      replace ((q0 + 1) * P - 1) with ((q0 + 1) * P + 1 + 2 * (-1)) by lia.
      rewrite Z.even_add_mul_2, Z.even_add, Z.even_mul, Heven, Bool.orb_true_r.
      reflexivity. }
    rewrite Hm. apply Z.div_mul. lia.
  - pose proof (round_half_even_cases (a * P) b Hb) as Hm. cbv zeta in Hm.
    set (Q := a * P / b) in *. set (R := (a * P) mod b) in *.
    set (m := round_half_even (a * P) b) in *.
    rewrite Z.add_0_r.
    symmetry. apply Z.div_unique with (r := m - q0 * P); [|lia].
    left. destruct Hm as [Hm|[Hm HR2]]; [lia|].
    split; [lia|].
    assert (Q + 1 < (q0 + 1) * P \/ Q + 1 = (q0 + 1) * P) as [Hc|Hc] by lia; [lia|].
    exfalso. nia.
Qed.

(** [int(a / b)] when the quotient is a normal binary64 value below [2^52]. *)
Lemma int_truediv_normal (a b : Z) :
  0 < a -> 0 < b ->
  let E := quot_exponent a b in
  -1022 <= E <= 51 ->
  int_truediv a b = Ok (round_half_even (a * 2 ^ (52 - E)) b / 2 ^ (52 - E)).
Proof.
  intros Ha Hb E HE. unfold int_truediv.
  destruct (Z.eqb_spec b 0) as [?|_]; [lia|].
  destruct (Z.eqb_spec a 0) as [?|_]; [lia|].
  rewrite (Z.abs_eq a), (Z.abs_eq b) by lia.
  unfold float_quotient. fold E.
  replace (Z.max (E - 52) (-1074)) with (E - 52) by lia.
  replace (Z.max 0 (- (E - 52))) with (52 - E) by lia.
  replace (Z.max 0 (E - 52)) with 0 by lia.
  rewrite Z.pow_0_r, Z.mul_1_r.
  unfold float_overflows, float_trunc.
  destruct (Z.ltb_spec 971 (E - 52)) as [?|_]; [lia|].
  destruct (Z.eqb_spec (E - 52) 971) as [?|_]; [lia|].
  destruct (Z.leb_spec 0 (E - 52)) as [?|_]; [lia|].
  cbn [orb andb].
  replace (- (E - 52)) with (52 - E) by lia.
  replace (Z.sgn a * Z.sgn b) with 1 by (rewrite !Z.sgn_pos by lia; lia).
  now rewrite Z.mul_1_l.
Qed.

Lemma even_pow2 (n : Z) : 0 < n -> Z.even (2 ^ n) = true.
Proof.
  intros Hn. replace n with (1 + (n - 1)) by lia.
  rewrite Z.pow_add_r by lia. now rewrite Z.even_mul.
Qed.

(** ** The carry of one chunk addition *)

(** The pair returned by the addition [_op_chunks] on chunk values. *)
Lemma add_op_chunks_carry_closed (c1 c2 : Z) :
  0 <= c1 < 10 ^ 18 -> 0 <= c2 < 10 ^ 18 ->
  LargeNumberAddOpUtils._op_chunks c1 c2 =
    Ok ((c1 + c2) mod 10 ^ 18,
        (c1 + c2) / 10 ^ 18 + (if carry_rounds_up (c1 + c2) then 1 else 0)).
Proof.
  intros H1 H2. unfold LargeNumberAddOpUtils._op_chunks, carry_rounds_up.
  change (_mod LargeNumberAddOpUtils.cls) with (10 ^ 18).
  change (10 ^ 18) with 1000000000000000000 in *.
  set (b := 1000000000000000000) in *.
  set (total := c1 + c2).
  assert (Htot : 0 <= total < 2 * b) by (unfold total, b in *; lia).
  assert (Hmod : py_mod total b = Ok (total mod b)) by reflexivity.
  destruct (Z.eq_dec total 0) as [H0|H0].
  { rewrite H0. vm_compute. reflexivity. }
  pose proof (quot_exponent_range total b) as HEr. cbv zeta in HEr.
  pose proof (quot_exponent_lower total b ltac:(lia) ltac:(unfold b; lia)) as HEl.
  pose proof (quot_exponent_upper total b ltac:(lia) ltac:(unfold b; lia)) as HEu.
  cbv zeta in HEl, HEu.
  assert (Hlt : 0 <= Z.log2 total <= 60).
  { split; [apply Z.log2_nonneg|].
    assert (Z.log2 total < 61); [|lia].
    apply Z.log2_lt_pow2; [lia|]. unfold b in Htot. lia. }
  change (Z.log2 b) with 59 in HEr.
  set (E := quot_exponent total b) in *.
  rewrite (int_truediv_normal total b) by (fold E; unfold b; lia).
  fold E. cbn [bind]. rewrite Hmod. cbn [bind].
  rewrite round_scaled_quotient by
    (try apply even_pow2; try apply Z.pow_pos_nonneg; unfold b; lia).
  do 2 f_equal. f_equal.
  pose proof (Z.div_mod total b ltac:(unfold b; lia)) as Hdm.
  pose proof (Z.mod_pos_bound total b ltac:(unfold b; lia)) as Hr.
  assert (HP : 0 < 2 ^ (52 - E)) by (apply Z.pow_pos_nonneg; lia).
  assert (total < b \/ b <= total) as [Hsmall|Hbig] by lia.
  - assert (Hq : total / b = 0) by (apply Z.div_small; lia).
    assert (Hr0 : total mod b = total) by (apply Z.mod_small; lia).
    rewrite Hr0.
    assert (HEneg : E < 0).
    { destruct (Z_lt_le_dec E 0) as [?|HE0]; [assumption|exfalso].
      replace (Z.max 0 E) with E in HEl by lia.
      replace (Z.max 0 (- E)) with 0 in HEl by lia.
      assert (0 < 2 ^ E) by (apply Z.pow_pos_nonneg; lia). nia. }
    replace (Z.max 0 E) with 0 in HEl by lia.
    replace (Z.max 0 (- E)) with (- E) in HEl by lia.
    rewrite Z.pow_0_r, Z.mul_1_r in HEl.
    replace (Z.max 0 (E + 1)) with 0 in HEu by lia.
    replace (Z.max 0 (- (E + 1))) with (- (E + 1)) in HEu by lia.
    rewrite Z.pow_0_r, Z.mul_1_r in HEu.
    destruct (Z.ltb_spec total b) as [_|?]; [|lia].
    destruct (Z.leb_spec (2 * b - 111) total) as [?|_]; [unfold b in *; lia|].
    rewrite Bool.andb_true_r, Bool.orb_false_r.
    assert (2 * total < b \/ b <= 2 * total) as [Hlow|Hhigh] by lia.
    + (* far below [10^18]: the mantissa is too fine to reach it *)
      destruct (Z.leb_spec (2 * (b - total) * 2 ^ (52 - E)) b) as [Hc|_]; [exfalso; nia|].
      destruct (Z.leb_spec (b - 55) total) as [?|_]; [unfold b in *; lia|].
      reflexivity.
    + assert (HE1 : E = -1).
      { destruct (Z.eq_dec E (-1)) as [?|Hne]; [assumption|exfalso].
        assert (2 <= - (E + 1) + 1) by lia.
        assert (2 * 2 ^ (- (E + 1) - 1) = 2 ^ (- (E + 1))).
        { rewrite <- (Z.pow_1_r 2) at 1. rewrite <- Z.pow_add_r by lia. f_equal; lia. }
        assert (0 < 2 ^ (- (E + 1) - 1)) by (apply Z.pow_pos_nonneg; lia).
        nia. }
      rewrite HE1. change (2 ^ (52 - -1)) with 9007199254740992.
      destruct (Z.leb_spec (2 * (b - total) * 9007199254740992) b);
        destruct (Z.leb_spec (b - 55) total); unfold b in *; lia.
  - assert (Hq : total / b = 1).
    { symmetry. apply Z.div_unique with (r := total - b); lia. }
    assert (Hr0 : total mod b = total - b).
    { symmetry. apply Z.mod_unique with (q := 1); lia. }
    rewrite Hr0.
    destruct (Z.ltb_spec total b) as [?|_]; [lia|].
    rewrite Bool.andb_false_r, Bool.orb_false_l.
    assert (HE0 : E = 0).
    { destruct (Z.lt_trichotomy E 0) as [Hn|[?|Hp]]; [exfalso|assumption|exfalso].
      - replace (Z.max 0 (E + 1)) with 0 in HEu by lia.
        replace (Z.max 0 (- (E + 1))) with (- (E + 1)) in HEu by lia.
        assert (0 < 2 ^ (- (E + 1))) by (apply Z.pow_pos_nonneg; lia).
        nia.
      - replace (Z.max 0 E) with E in HEl by lia.
        replace (Z.max 0 (- E)) with 0 in HEl by lia.
        assert (2 * 2 ^ (E - 1) = 2 ^ E).
        { rewrite <- (Z.pow_1_r 2) at 1. rewrite <- Z.pow_add_r by lia. f_equal; lia. }
        assert (0 < 2 ^ (E - 1)) by (apply Z.pow_pos_nonneg; lia).
        nia. }
    rewrite HE0. change (2 ^ (52 - 0)) with 4503599627370496.
    destruct (Z.leb_spec (2 * (b - (total - b)) * 4503599627370496) b);
      destruct (Z.leb_spec (2 * b - 111) total); unfold b in *; lia.
Qed.

(** C4: for chunk values [c1], [c2] in [[0, 10^18)] the kept value returned by
    [_op_chunks] is [(c1 + c2) mod 10^18], but the carry is
    [floor ((c1 + c2) / 10^18)] only outside two windows: the quotient is taken
    through a binary64 value, and for the last 55 sums below [10^18] and the
    last 111 sums below [2 * 10^18] it is rounded up to the next integer, so
    the carry is one too large there. *)
Theorem add_op_chunks_carry (c1 c2 : Z) :
  0 <= c1 < 10 ^ 18 -> 0 <= c2 < 10 ^ 18 ->
  exists kept carry,
    LargeNumberAddOpUtils._op_chunks c1 c2 = Ok (kept, carry) /\
    kept = (c1 + c2) mod 10 ^ 18 /\
    carry = (c1 + c2) / 10 ^ 18 + (if carry_rounds_up (c1 + c2) then 1 else 0) /\
    (carry = (c1 + c2) / 10 ^ 18 <-> carry_rounds_up (c1 + c2) = false).
Proof.
  intros H1 H2. eexists; eexists. split; [now apply add_op_chunks_carry_closed|].
  split; [reflexivity|]. split; [reflexivity|].
  destruct (carry_rounds_up (c1 + c2)); split; intros H; try reflexivity;
    try discriminate; lia.
Qed.

Lemma add_op_chunks_carry_witness :
  exists kept carry,
    LargeNumberAddOpUtils._op_chunks 999999999999999999 0 = Ok (kept, carry) /\
    kept = (999999999999999999 + 0) mod 10 ^ 18 /\
    carry = (999999999999999999 + 0) / 10 ^ 18
            + (if carry_rounds_up (999999999999999999 + 0) then 1 else 0) /\
    (carry = (999999999999999999 + 0) / 10 ^ 18 <->
     carry_rounds_up (999999999999999999 + 0) = false).
Proof.
  apply add_op_chunks_carry; vm_compute; split; first [discriminate | reflexivity].
Defined.

(** Outside the two windows the carry is the integer quotient. *)
Lemma add_op_chunks_exact (c1 c2 : Z) :
  0 <= c1 < 10 ^ 18 -> 0 <= c2 < 10 ^ 18 ->
  carry_rounds_up (c1 + c2) = false ->
  LargeNumberAddOpUtils._op_chunks c1 c2
  = Ok ((c1 + c2) mod 10 ^ 18, (c1 + c2) / 10 ^ 18).
Proof.
  intros H1 H2 Hw. rewrite add_op_chunks_carry_closed by assumption.
  rewrite Hw. now rewrite Z.add_0_r.
Qed.

(** ** The chunking length *)

Lemma next_multiple_smallest_gt (w n : Z) :
  0 < w -> 0 <= n -> smallest_multiple_gt w n ((n / w + 1) * w).
Proof.
  intros Hw Hn.
  pose proof (Z.div_mod n w ltac:(lia)) as Hdm.
  pose proof (Z.mod_pos_bound n w Hw) as Hr.
  repeat split.
  - exists (n / w + 1). reflexivity.
  - nia.
  - intros t' [k ->] Hlt.
    assert (n / w < k) by nia.
    nia.
Qed.

Lemma compute_divisible_len_exact (cls : OpUtilsClass) (n : Z) :
  0 < _chunk_size cls < exact_quotient_bound ->
  0 <= n < exact_quotient_bound ->
  compute_divisible_len cls n = Ok ((n / _chunk_size cls + 1) * _chunk_size cls).
Proof.
  intros Hw Hn. unfold compute_divisible_len.
  now rewrite int_truediv_exact.
Qed.

(** *** The windows cut by [_pad_split_and_reverse] *)

Lemma py_range_chunks (w : Z) (K : nat) :
  0 < w ->
  py_range 0 (Z.of_nat K * w) w = Ok (map (fun j => Z.of_nat j * w) (seq 0 K)).
Proof.
  intros Hw. unfold py_range.
  destruct (Z.eqb_spec w 0) as [?|_]; [lia|].
  destruct (Z.ltb_spec 0 w) as [_|?]; [|lia].
  replace ((Z.of_nat K * w - 0 + w - 1) / w) with (Z.of_nat K).
  - rewrite Nat2Z.id. f_equal.
  - apply Z.div_unique with (r := w - 1); lia.
Qed.

Lemma slice_window (s : string) (w : Z) (j K : nat) :
  0 < w -> len s = Z.of_nat K * w -> (j < K)%nat ->
  slice s (Z.of_nat j * w) (Z.of_nat j * w + w)
  = take (Z.to_nat w) (drop (j * Z.to_nat w) s).
Proof.
  intros Hw Hlen Hj. unfold slice, slice_bound.
  destruct (Z.ltb_spec (Z.of_nat j * w) 0) as [?|_]; [nia|].
  destruct (Z.ltb_spec (Z.of_nat j * w + w) 0) as [?|_]; [nia|].
  rewrite !Z.min_l by nia.
  rewrite substring_take_drop. f_equal; [f_equal; lia|].
  f_equal. rewrite Z2Nat.inj_mul, Nat2Z.id by lia. reflexivity.
Qed.

Lemma pad_split_chunks (cls : OpUtilsClass) (s : string) (K : nat) :
  0 < _chunk_size cls ->
  len s <= Z.of_nat K * _chunk_size cls ->
  _pad_split_and_reverse cls s (Z.of_nat K * _chunk_size cls)
  = Ok (rev (chunks_at (Z.to_nat (_chunk_size cls))
                       (zfill s (Z.of_nat K * _chunk_size cls)) K)).
Proof.
  intros Hw Hlen. unfold _pad_split_and_reverse.
  rewrite py_range_chunks by exact Hw. cbn [bind]. do 2 f_equal.
  unfold chunks_at. rewrite map_map. apply map_ext_in.
  intros j Hj. apply in_seq in Hj.
  apply slice_window with (K := K); [exact Hw | now apply len_zfill | lia].
Qed.

Lemma chunks_at_succ (wn : nat) (s : string) (K : nat) :
  chunks_at wn s (S K) = take wn s :: chunks_at wn (drop wn s) K.
Proof.
  unfold chunks_at. cbn [seq map]. f_equal.
  rewrite <- seq_shift, map_map. apply map_ext.
  intros j. rewrite drop_drop. do 2 f_equal; lia.
Qed.

Lemma length_chunks_at (wn : nat) (s : string) (K : nat) :
  List.length (chunks_at wn s K) = K.
Proof. unfold chunks_at. now rewrite length_map, length_seq. Qed.

Lemma chunks_at_lengths (wn : nat) (s : string) (K : nat) :
  String.length s = (K * wn)%nat ->
  Forall (fun c => String.length c = wn) (chunks_at wn s K).
Proof.
  revert s. induction K as [|K IH]; intros s Hlen; [constructor|].
  rewrite chunks_at_succ. constructor.
  - rewrite length_take. lia.
  - apply IH. rewrite length_drop. lia.
Qed.

Lemma join_chunks_at (wn : nat) (s : string) (K : nat) :
  String.length s = (K * wn)%nat -> join (chunks_at wn s K) = s.
Proof.
  revert s. induction K as [|K IH]; intros s Hlen.
  - destruct s; [reflexivity|discriminate].
  - rewrite chunks_at_succ, join_cons, IH by (rewrite length_drop; lia).
    apply take_drop_append.
Qed.

(** C7 (as amended): for a string of length [n >= 1] and a chunk width [w]
    (both below [2^52]), the chunking step computes the target length
    [(n / w + 1) * w], the smallest multiple of [w] that is strictly greater
    than [n], pads the string to exactly that length and cuts it into
    [n / w + 1] chunks of [w] characters.  The target is the smallest
    multiple of [w] at or above [n] exactly when [n] is not a multiple of [w];
    a string whose length is a multiple of [w] gets one more full chunk of
    zeros. *)
Theorem pad_to_next_chunk_boundary (cls : OpUtilsClass) (s : string) :
  0 < _chunk_size cls < exact_quotient_bound ->
  1 <= len s < exact_quotient_bound ->
  exists t chunks,
    _compute_target_len cls (len s) (len s) = Ok t /\
    compute_divisible_len cls (len s) = Ok t /\
    smallest_multiple_gt (_chunk_size cls) (len s) t /\
    len (zfill s t) = t /\
    _pad_split_and_reverse cls s t = Ok chunks /\
    join (rev chunks) = zfill s t /\
    Z.of_nat (List.length chunks) = len s / _chunk_size cls + 1 /\
    Forall (fun c => len c = _chunk_size cls) chunks /\
    (smallest_multiple_ge (_chunk_size cls) (len s) t <->
     ~ (_chunk_size cls | len s)) /\
    ((_chunk_size cls | len s) -> t = len s + _chunk_size cls).
Proof.
  intros Hw Hn.
  set (w := _chunk_size cls) in *.
  pose proof (next_multiple_smallest_gt w (len s) ltac:(lia) ltac:(lia)) as Hgt.
  pose proof (Z.div_pos (len s) w ltac:(lia) ltac:(lia)) as Hq.
  set (K := Z.to_nat (len s / w + 1)).
  assert (HK : len s / w + 1 = Z.of_nat K) by (unfold K; lia).
  rewrite HK in Hgt.
  assert (Hlen : compute_divisible_len cls (len s) = Ok (Z.of_nat K * w)).
  { rewrite <- HK. apply compute_divisible_len_exact; fold w; lia. }
  assert (Hpad : len (zfill s (Z.of_nat K * w)) = Z.of_nat K * w).
  { apply len_zfill. destruct Hgt as (_ & Hlt & _). lia. }
  assert (Hwin : String.length (zfill s (Z.of_nat K * w)) = (K * Z.to_nat w)%nat).
  { unfold len in Hpad. apply Nat2Z.inj. rewrite Hpad, Nat2Z.inj_mul. lia. }
  exists (Z.of_nat K * w), (rev (chunks_at (Z.to_nat w) (zfill s (Z.of_nat K * w)) K)).
  split; [|split; [|split; [|split; [|split; [|split; [|split; [|split; [|split]]]]]]]].
  - unfold _compute_target_len. now rewrite Z.max_id.
  - exact Hlen.
  - exact Hgt.
  - exact Hpad.
  - apply pad_split_chunks; [lia|]. destruct Hgt as (_ & Hlt & _). fold w. lia.
  - rewrite rev_involutive. now apply join_chunks_at.
  - rewrite length_rev, length_chunks_at. lia.
  - apply Forall_rev. eapply Forall_impl; [|apply chunks_at_lengths, Hwin].
    intros c Hc. unfold len. rewrite Hc. lia.
  - destruct Hgt as (Hdiv & Hlt & Hmin). split.
    + intros (_ & _ & Hmin') Hmult.
      specialize (Hmin' (len s) Hmult ltac:(lia)). lia.
    + intros Hnot. repeat split; [exact Hdiv|lia|].
      intros t' Ht' Hle.
      assert (len s = t' \/ len s < t') as [Heq|Hlt'] by lia.
      * exfalso. apply Hnot. now rewrite Heq.
      * now apply Hmin.
  - intros [k Hk]. rewrite <- HK. rewrite Hk at 1.
    rewrite Z.div_mul by lia. lia.
Qed.

Lemma pad_to_next_chunk_boundary_witness :
  exists t chunks,
    _compute_target_len LargeNumberFirstDegreeOpUtils
      (len "123456789012345678") (len "123456789012345678") = Ok t /\
    compute_divisible_len LargeNumberFirstDegreeOpUtils (len "123456789012345678") = Ok t /\
    smallest_multiple_gt 18 (len "123456789012345678") t /\
    len (zfill "123456789012345678" t) = t /\
    _pad_split_and_reverse LargeNumberFirstDegreeOpUtils "123456789012345678" t
      = Ok chunks /\
    join (rev chunks) = zfill "123456789012345678" t /\
    Z.of_nat (List.length chunks) = len "123456789012345678" / 18 + 1 /\
    Forall (fun c => len c = 18) chunks /\
    (smallest_multiple_ge 18 (len "123456789012345678") t <->
     ~ (18 | len "123456789012345678")) /\
    ((18 | len "123456789012345678") -> t = len "123456789012345678" + 18).
Proof.
  apply (pad_to_next_chunk_boundary LargeNumberFirstDegreeOpUtils "123456789012345678").
  - vm_compute. split; reflexivity.
  - vm_compute. split; [discriminate | reflexivity].
Defined.

(** C7 (as stated) fails: an 18-digit string chunked at width 18 is padded to
    36 characters, although 18 is already the smallest multiple of 18 that is
    at least 18. *)
Lemma pad_full_chunk_counterexample :
  compute_divisible_len LargeNumberFirstDegreeOpUtils (len "123456789012345678") = Ok 36 /\
  len (zfill "123456789012345678" 36) = 36 /\
  smallest_multiple_ge 18 (len "123456789012345678") 18 /\
  ~ smallest_multiple_ge 18 (len "123456789012345678") 36.
Proof.
  split; [vm_compute; reflexivity|].
  split; [vm_compute; reflexivity|].
  change (len "123456789012345678") with 18.
  split.
  - repeat split; [exists 1; reflexivity | lia | intros; lia].
  - intros (_ & _ & Hmin).
    specialize (Hmin 18 ltac:(exists 1; reflexivity) ltac:(lia)). lia.
Qed.

(** *** Chunk values *)

Lemma chunks_at_digits (wn : nat) (s : string) (K : nat) :
  (0 < wn)%nat -> all_digits s = true -> String.length s = (K * wn)%nat ->
  map py_int (chunks_at wn s K) = map Ok (map value (chunks_at wn s K)) /\
  Forall (fun v => 0 <= v < 10 ^ Z.of_nat wn) (map value (chunks_at wn s K)) /\
  eval_msb (10 ^ Z.of_nat wn) (map value (chunks_at wn s K)) = value s.
Proof.
  intros Hwn. revert s. induction K as [|K IH]; intros s Hd Hlen.
  - destruct s; [|discriminate]. repeat split. constructor.
  - rewrite chunks_at_succ. cbn [map eval_msb].
    assert (Hlt : String.length (take wn s) = wn) by (rewrite length_take; lia).
    assert (Hld : String.length (drop wn s) = (K * wn)%nat) by (rewrite length_drop; lia).
    destruct (IH (drop wn s) (all_digits_drop wn s Hd) Hld) as (IH1 & IH2 & IH3).
    pose proof (value_range (take wn s)) as Hr. unfold len in Hr. rewrite Hlt in Hr.
    repeat split.
    + rewrite IH1. f_equal. apply py_int_digits; [now apply all_digits_take|].
      intros Heq. rewrite Heq in Hlt. cbn in Hlt. lia.
    + constructor; [exact Hr | exact IH2].
    + rewrite IH3, length_map, length_chunks_at.
      rewrite <- (take_drop_append wn s) at 3. rewrite value_append.
      unfold len. rewrite Hld, <- Z.pow_mul_r by lia.
      do 3 f_equal. lia.
Qed.

Lemma eval_msb_range (B : Z) (l : list Z) :
  0 < B -> Forall (fun v => 0 <= v < B) l ->
  0 <= eval_msb B l < B ^ Z.of_nat (List.length l).
Proof.
  intros HB H. induction H as [|v l Hv _ IH]; [cbn; lia|].
  cbn [eval_msb List.length]. rewrite Nat2Z.inj_succ, Z.pow_succ_r by lia.
  assert (0 < B ^ Z.of_nat (List.length l)) by (apply Z.pow_pos_nonneg; lia).
  nia.
Qed.

Lemma mapM_Ok {A B : Type} (f : A -> result B) (g : A -> B) (l : list A) :
  (forall x, In x l -> f x = Ok (g x)) -> mapM f l = Ok (map g l).
Proof.
  induction l as [|x l IH]; intros H; [reflexivity|].
  cbn [mapM map]. rewrite (H x (or_introl eq_refl)). cbn [bind].
  rewrite IH by (intros y Hy; apply H; now right). reflexivity.
Qed.

Lemma mapM_map {A B C : Type} (f : B -> result C) (h : A -> B) (l : list A) :
  mapM f (map h l) = mapM (fun x => f (h x)) l.
Proof.
  induction l as [|x l IH]; [reflexivity|]. cbn [map mapM]. now rewrite IH.
Qed.

Lemma combine_map_Ok (xs ys : list Z) :
  combine (map (@Ok Z) xs) (map (@Ok Z) ys)
  = map (fun p => (Ok (fst p), Ok (snd p))) (combine xs ys).
Proof.
  revert ys. induction xs as [|x xs IH]; intros [|y ys]; cbn; try reflexivity.
  now rewrite IH.
Qed.

(** [_make_chunks] on digit strings: both operands are cut into the same
    number of chunks, which all convert to numbers. *)
Lemma make_chunks_digits (cls : OpUtilsClass) (a b : string) :
  0 < _chunk_size cls < exact_quotient_bound ->
  all_digits a = true -> all_digits b = true ->
  len a < exact_quotient_bound -> len b < exact_quotient_bound ->
  let K := chunk_count cls a b in
  _make_chunks cls a b
  = Ok (map Ok (rev (chunk_values cls K a)), map Ok (rev (chunk_values cls K b))).
Proof.
  intros Hw Ha Hb Hla Hlb K. unfold _make_chunks, _compute_target_len.
  pose proof (len_lstrip0 a) as Hsa. pose proof (len_lstrip0 b) as Hsb.
  pose proof (len_nonneg (lstrip0 a)) as Hna. pose proof (len_nonneg (lstrip0 b)) as Hnb.
  set (n := Z.max (len (lstrip0 a)) (len (lstrip0 b))) in *.
  rewrite compute_divisible_len_exact by lia. cbn [bind].
  pose proof (Z.div_pos n (_chunk_size cls) ltac:(lia) ltac:(lia)) as Hq.
  assert (HK : n / _chunk_size cls + 1 = Z.of_nat K).
  { unfold K, chunk_count. fold n. lia. }
  rewrite HK.
  pose proof (next_multiple_smallest_gt (_chunk_size cls) n ltac:(lia) ltac:(lia))
    as (_ & Hgt & _). rewrite HK in Hgt.
  rewrite !pad_split_chunks by (try apply all_digits_lstrip0; try assumption; lia).
  cbn [bind]. unfold chunk_values.
  set (wn := Z.to_nat (_chunk_size cls)).
  assert (Hwn : (0 < wn)%nat) by (unfold wn; lia).
  assert (Hlen : forall s, all_digits s = true -> len (lstrip0 s) <= n ->
            String.length (zfill (lstrip0 s) (Z.of_nat K * _chunk_size cls)) = (K * wn)%nat).
  { intros s Hs Hle.
    pose proof (len_zfill (lstrip0 s) (Z.of_nat K * _chunk_size cls) ltac:(lia)) as Hz.
    unfold len in Hz. unfold wn. apply Nat2Z.inj. rewrite Hz, Nat2Z.inj_mul. lia. }
  destruct (chunks_at_digits wn _ K Hwn
              (all_digits_zfill _ _ (all_digits_lstrip0 a Ha)) (Hlen a Ha ltac:(lia)))
    as (Ea & _).
  destruct (chunks_at_digits wn _ K Hwn
              (all_digits_zfill _ _ (all_digits_lstrip0 b Hb)) (Hlen b Hb ltac:(lia)))
    as (Eb & _).
  now rewrite !map_rev, Ea, Eb.
Qed.

Lemma chunk_values_spec (cls : OpUtilsClass) (a b s : string) :
  0 < _chunk_size cls < exact_quotient_bound ->
  all_digits s = true ->
  len (lstrip0 s) <= Z.max (len (lstrip0 a)) (len (lstrip0 b)) ->
  Z.max (len (lstrip0 a)) (len (lstrip0 b)) < exact_quotient_bound ->
  let K := chunk_count cls a b in
  List.length (chunk_values cls K s) = K /\
  Forall (fun v => 0 <= v < 10 ^ _chunk_size cls) (chunk_values cls K s) /\
  eval_msb (10 ^ _chunk_size cls) (chunk_values cls K s) = value s.
Proof.
  intros Hw Hs Hle Hn K.
  pose proof (len_nonneg (lstrip0 a)) as Hna.
  set (n := Z.max (len (lstrip0 a)) (len (lstrip0 b))) in *.
  pose proof (Z.div_pos n (_chunk_size cls) ltac:(lia) ltac:(lia)) as Hq.
  assert (HK : n / _chunk_size cls + 1 = Z.of_nat K).
  { unfold K, chunk_count. fold n. lia. }
  pose proof (next_multiple_smallest_gt (_chunk_size cls) n ltac:(lia) ltac:(lia))
    as (_ & Hgt & _). rewrite HK in Hgt.
  unfold chunk_values.
  set (wn := Z.to_nat (_chunk_size cls)).
  assert (Hwn : (0 < wn)%nat) by (unfold wn; lia).
  assert (Hlen : String.length (zfill (lstrip0 s) (Z.of_nat K * _chunk_size cls))
                 = (K * wn)%nat).
  { pose proof (len_zfill (lstrip0 s) (Z.of_nat K * _chunk_size cls) ltac:(lia)) as Hz.
    unfold len in Hz. unfold wn. apply Nat2Z.inj. rewrite Hz, Nat2Z.inj_mul. lia. }
  destruct (chunks_at_digits wn _ K Hwn
              (all_digits_zfill _ _ (all_digits_lstrip0 s Hs)) Hlen)
    as (_ & Hr & He).
  replace (Z.of_nat wn) with (_chunk_size cls) in Hr, He by (unfold wn; lia).
  repeat split.
  - now rewrite length_map, length_chunks_at.
  - exact Hr.
  - rewrite He, value_zfill, value_lstrip0; [reflexivity|].
    now apply all_digits_lstrip0.
Qed.

(** [operate] on digit strings, for an [_op_chunks] that returns on chunk
    values. *)
Lemma operate_digits (cls : OpUtilsClass) (op : Z -> Z -> result (Z * Z))
      (op' : Z -> Z -> Z * Z) (a b : string) :
  0 < _chunk_size cls < exact_quotient_bound ->
  all_digits a = true -> all_digits b = true ->
  len a < exact_quotient_bound -> len b < exact_quotient_bound ->
  (forall x y, 0 <= x < 10 ^ _chunk_size cls -> 0 <= y < 10 ^ _chunk_size cls ->
               op x y = Ok (op' x y)) ->
  let K := chunk_count cls a b in
  operate cls op a b
  = Ok (assemble cls (map (fun p => op' (fst p) (snd p))
                          (combine (rev (chunk_values cls K a))
                                   (rev (chunk_values cls K b))))).
Proof.
  intros Hw Ha Hb Hla Hlb Hop K. unfold operate.
  rewrite make_chunks_digits by assumption. fold K. cbn [bind].
  pose proof (len_lstrip0 a) as Hsa. pose proof (len_lstrip0 b) as Hsb.
  destruct (chunk_values_spec cls a b a Hw Ha ltac:(lia) ltac:(lia)) as (_ & Hra & _).
  destruct (chunk_values_spec cls a b b Hw Hb ltac:(lia) ltac:(lia)) as (_ & Hrb & _).
  fold K in Hra, Hrb.
  rewrite combine_map_Ok.
  rewrite mapM_map, (mapM_Ok _ (fun p => op' (fst p) (snd p))).
  - reflexivity.
  - intros [x y] Hin. cbn [fst snd bind]. apply Hop.
    + apply in_combine_l, in_rev in Hin. rewrite Forall_forall in Hra. now apply Hra.
    + apply in_combine_r, in_rev in Hin. rewrite Forall_forall in Hrb. now apply Hrb.
Qed.

(** ** Where the sign error can come from *)

Lemma no_sign_error_Ok {A : Type} (a : A) : no_sign_error (Ok a).
Proof. discriminate. Qed.

Lemma no_sign_error_Raise {A B : Type} (e : exn) :
  no_sign_error (@Raise A e) -> no_sign_error (@Raise B e).
Proof. intros H Heq. apply H. inversion Heq. reflexivity. Qed.

Lemma no_sign_error_bind {A B : Type} (m : result A) (k : A -> result B) :
  no_sign_error m -> (forall a, no_sign_error (k a)) -> no_sign_error (bind m k).
Proof.
  intros Hm Hk. destruct m as [a|e]; simpl; [apply Hk|].
  exact (no_sign_error_Raise e Hm).
Qed.

Lemma no_sign_error_mapM {A B : Type} (f : A -> result B) (l : list A) :
  (forall a, no_sign_error (f a)) -> no_sign_error (mapM f l).
Proof.
  intros Hf. induction l as [|x l IH]; simpl; [apply no_sign_error_Ok|].
  apply no_sign_error_bind; [apply Hf|]. intros y.
  apply no_sign_error_bind; [exact IH|]. intros ys. apply no_sign_error_Ok.
Qed.

Lemma no_sign_error_parse (s : string) : no_sign_error (parse_nonempty_digits s).
Proof.
  unfold parse_nonempty_digits.
  destruct s; [discriminate|]. destruct (parse_digits _ _); discriminate.
Qed.

Lemma no_sign_error_py_int (s : string) : no_sign_error (py_int s).
Proof.
  pose proof no_sign_error_parse as Hp.
  assert (Hneg : forall s', no_sign_error (n <- parse_nonempty_digits s' ;; Ok (- n))).
  { intros s'. apply no_sign_error_bind; [apply Hp|]. intros n. apply no_sign_error_Ok. }
  unfold py_int. destruct s as [|c s']; [apply Hp|].
  ascii_cases c; first [apply Hneg | apply Hp].
Qed.

Lemma no_sign_error_index (s : string) (i : Z) : no_sign_error (index s i).
Proof.
  unfold index. destruct (_ && _); [|discriminate].
  destruct (String.get _ _); discriminate.
Qed.

Lemma no_sign_error_int_truediv (a b : Z) : no_sign_error (int_truediv a b).
Proof.
  unfold int_truediv.
  destruct (b =? 0); [discriminate|]. destruct (a =? 0); [discriminate|].
  destruct (float_quotient _ _) as [m e]. destruct (float_overflows m e); discriminate.
Qed.

Lemma no_sign_error_py_range (start stop step : Z) :
  no_sign_error (py_range start stop step).
Proof. unfold py_range. destruct (step =? 0); discriminate. Qed.

Create HintDb no_sign.

#[local] Hint Resolve no_sign_error_Ok no_sign_error_py_int no_sign_error_index
  no_sign_error_int_truediv no_sign_error_py_range : no_sign.

(** Walks through a chain of binds, closing each step with the facts above. *)
Ltac no_sign_steps :=
  repeat first
    [ solve [auto with no_sign]
    | apply no_sign_error_bind; [|intros ?] ].

Lemma no_sign_error_pad_split (cls : OpUtilsClass) (num : string) (target_len : Z) :
  no_sign_error (_pad_split_and_reverse cls num target_len).
Proof. unfold _pad_split_and_reverse. no_sign_steps. Qed.

#[local] Hint Resolve no_sign_error_pad_split : no_sign.

Lemma no_sign_error_make_chunks (cls : OpUtilsClass) (a b : string) :
  no_sign_error (_make_chunks cls a b).
Proof.
  unfold _make_chunks, _compute_target_len, compute_divisible_len. no_sign_steps.
Qed.

Lemma make_chunks_no_sign_error (cls : OpUtilsClass) (a b : string)
      (ca cb : list (result Z)) :
  _make_chunks cls a b = Ok (ca, cb) ->
  forall m, In m ca \/ In m cb -> no_sign_error m.
Proof.
  unfold _make_chunks. intros Hmk m Hin.
  destruct (_compute_target_len cls _ _) as [t|]; [|discriminate].
  cbn [bind] in Hmk.
  destruct (_pad_split_and_reverse cls (lstrip0 a) t) as [a'|]; [|discriminate].
  cbn [bind] in Hmk.
  destruct (_pad_split_and_reverse cls (lstrip0 b) t) as [b'|]; [|discriminate].
  cbn [bind] in Hmk. injection Hmk as <- <-.
  destruct Hin as [Hin|Hin]; apply in_map_iff in Hin;
    destruct Hin as (c & <- & _); apply no_sign_error_py_int.
Qed.

Lemma no_sign_error_operate (cls : OpUtilsClass) (op : Z -> Z -> result (Z * Z))
      (a b : string) :
  (forall x y, no_sign_error (op x y)) ->
  no_sign_error (operate cls op a b).
Proof.
  intros Hop. unfold operate.
  destruct (_make_chunks cls a b) as [[ca cb]|e] eqn:Hmk.
  - cbn [bind]. apply no_sign_error_bind; [|intros r; apply no_sign_error_Ok].
    assert (Hin : forall p, In p (combine ca cb) ->
                            no_sign_error (fst p) /\ no_sign_error (snd p)).
    { intros [x y] Hp. split.
      - apply (make_chunks_no_sign_error cls a b ca cb Hmk). left.
        eapply in_combine_l; eauto.
      - apply (make_chunks_no_sign_error cls a b ca cb Hmk). right.
        eapply in_combine_r; eauto. }
    induction (combine ca cb) as [|[x y] l IH]; [apply no_sign_error_Ok|].
    cbn [mapM]. destruct (Hin (x, y) (or_introl eq_refl)) as [Hx Hy].
    apply no_sign_error_bind.
    + apply no_sign_error_bind; [exact Hx|]. intros x'.
      apply no_sign_error_bind; [exact Hy|]. intros y'. apply Hop.
    + intros r0. apply no_sign_error_bind; [|intros; apply no_sign_error_Ok].
      apply IH. intros p Hp. apply Hin. now right.
  - cbn [bind]. pose proof (no_sign_error_make_chunks cls a b) as Hn.
    rewrite Hmk in Hn. exact (no_sign_error_Raise e Hn).
Qed.

Lemma no_sign_error_is_smaller (a b : string) :
  no_sign_error (LargeNumberSubtractOpUtils._is_smaller a b).
Proof.
  unfold LargeNumberSubtractOpUtils._is_smaller.
  destruct (_ >? _); [apply no_sign_error_Ok|].
  destruct (_ =? _); [|apply no_sign_error_Ok].
  no_sign_steps. destruct (_ >? _); apply no_sign_error_Ok.
Qed.

Lemma no_sign_error_subtract_op_chunks (x y : Z) :
  no_sign_error (LargeNumberSubtractOpUtils._op_chunks x y).
Proof.
  unfold LargeNumberSubtractOpUtils._op_chunks.
  destruct (_ <? _); apply no_sign_error_Ok.
Qed.

(** The sign error is raised exactly when one of the operands begins with
    ['-']: the check is the first thing [subtract] does, whatever else the
    operands contain, and no later step can raise that error. *)
Lemma subtract_sign_error_only_from_check (a b : string) :
  LargeNumberSubtractOpUtils.subtract a b = Raise ValueError_sign <->
  startswith_minus a = true \/ startswith_minus b = true.
Proof.
  unfold LargeNumberSubtractOpUtils.subtract,
    LargeNumberSubtractOpUtils._check_non_negative.
  destruct (startswith_minus a); cbn [bind]; [tauto|].
  destruct (startswith_minus b); cbn [bind]; [tauto|].
  split; [|intros [H|H]; discriminate].
  intros Hraise. exfalso. revert Hraise.
  apply no_sign_error_bind; [apply no_sign_error_is_smaller|].
  intros [|].
  - apply no_sign_error_bind; [|intros; apply no_sign_error_Ok].
    apply no_sign_error_operate, no_sign_error_subtract_op_chunks.
  - apply no_sign_error_operate, no_sign_error_subtract_op_chunks.
Qed.

(** ** The sign of a difference *)

(** *** [str] of a positive number *)

Lemma string_of_uint_digits (u : Decimal.uint) :
  all_digits (NilEmpty.string_of_uint u) = true.
Proof. induction u; cbn; auto. Qed.

Lemma to_uint_head (p : positive) :
  match Pos.to_uint p with
  | Decimal.Nil | Decimal.D0 _ => False
  | _ => True
  end.
Proof.
  pose proof (Unsigned.to_of (Pos.to_uint p)) as Hn.
  rewrite Unsigned.of_to in Hn. cbn [N.to_uint] in Hn.
  pose proof (Unsigned.to_uint_nonzero p) as Hz.
  pose proof (Unsigned.to_uint_nonnil p) as Hnil.
  destruct (Pos.to_uint p) as [|d|d|d|d|d|d|d|d|d|d]; try exact I; [contradiction|].
  rewrite unorm_D0 in Hn.
  assert (Hcases : d = Decimal.Nil \/ d <> Decimal.Nil)
    by (destruct d; [left; reflexivity | right; discriminate ..]).
  destruct Hcases as [->|Hd]; [now apply Hz|].
  pose proof (nb_digits_unorm d Hd) as Hle.
  rewrite <- Hn in Hle. cbn [Decimal.nb_digits] in Hle. lia.
Qed.

Lemma py_str_positive (n : Z) :
  0 < n ->
  exists c s, py_str n = String c s /\ c <> "0"%char /\ c <> "-"%char /\
              all_digits (String c s) = true.
Proof.
  intros Hn. destruct n as [|p|p]; try lia.
  unfold py_str. cbn [Z.to_int NilZero.string_of_int].
  pose proof (to_uint_head p) as Hh.
  unfold NilZero.string_of_uint.
  pose proof (string_of_uint_digits (Pos.to_uint p)) as Hd.
  destruct (Pos.to_uint p) as [|d|d|d|d|d|d|d|d|d|d]; try contradiction;
    cbn [NilEmpty.string_of_uint] in *;
    (eexists; eexists; split; [reflexivity|]; split; [discriminate|];
     split; [discriminate|exact Hd]).
Qed.

(** *** The sign of an assembled string *)

Lemma written_sign (l : list Z) :
  Forall (fun n => -1 <= n) l ->
  startswith_minus (lstrip0 (join (map (fun n => zfill (py_str n) 18) l)))
  = first_nonzero_negative l.
Proof.
  intros H. induction H as [|n l Hn _ IH]; [reflexivity|].
  cbn [map first_nonzero_negative]. rewrite join_cons.
  destruct (Z.eqb_spec n 0) as [->|Hne].
  - change (zfill (py_str 0) 18) with (str_repeat 18 "0").
    now rewrite lstrip0_zeros_append.
  - destruct (Z.ltb_spec n 0) as [Hneg|Hpos].
    + replace n with (-1) by lia. reflexivity.
    + destruct (py_str_positive n ltac:(lia)) as (c & s & Hs & Hc0 & Hcm & Hd).
      rewrite zfill_digits by (now rewrite Hs).
      rewrite append_assoc. unfold str_mul. rewrite lstrip0_zeros_append, Hs.
      cbn [append]. rewrite lstrip0_not_zero by exact Hc0.
      ascii_cases c; first [reflexivity | contradiction].
Qed.

(** *** The written chunks, seen from the most significant end *)

Lemma written_chunks_snoc (t0 : Z) (M : list (Z * Z)) (t cr cend : Z) :
  written_chunks t0 (M ++ [(t, cr)]) cend
  = (written_chunks t0 M cr ++ [t + cend])%list.
Proof.
  revert t0. induction M as [|[t' cr'] M IH]; intros t0; [reflexivity|].
  cbn [app written_chunks]. now rewrite IH.
Qed.

Lemma written_chunks_rev (R : list (Z * Z)) (c0 : Z) :
  rev (map (fun p => fst p + snd p) (combine (map fst R ++ [0]) (c0 :: map snd R)))
  = written_chunks 0 (rev R) c0.
Proof.
  revert c0. induction R as [|[t cr] R IH]; intros c0; [reflexivity|].
  cbn [map fst snd app combine rev]. rewrite IH, written_chunks_snoc. reflexivity.
Qed.

Lemma assemble_written (cls : OpUtilsClass) (R : list (Z * Z)) :
  assemble cls R
  = lstrip0 (join (map (fun n => zfill (py_str n) (_chunk_size cls))
                       (written_chunks 0 (rev R) 0))).
Proof.
  unfold assemble. rewrite <- written_chunks_rev, map_rev, map_map.
  do 3 f_equal. apply map_ext. now intros [t c].
Qed.

(** *** Borrows and the order of the operands *)

Lemma written_chunks_lower_bound (t0 : Z) (M : list (Z * Z)) :
  0 <= t0 ->
  Forall (fun p => 0 <= fst p < 10 ^ 18 /\ 0 <= snd p < 10 ^ 18) M ->
  Forall (fun n => -1 <= n) (written_chunks t0 (map subtract_chunk M) 0).
Proof.
  intros Ht H. revert t0 Ht. induction H as [|[x y] M [Hx Hy] _ IH]; intros t0 Ht.
  - cbn. constructor; [lia|constructor].
  - cbn [map subtract_chunk fst snd] in *.
    destruct (Z.ltb_spec x y); cbn [written_chunks];
      constructor; try lia; apply IH; lia.
Qed.

Lemma written_chunks_positive (t0 : Z) (M : list (Z * Z)) :
  1 <= t0 ->
  Forall (fun p => 0 <= fst p < 10 ^ 18 /\ 0 <= snd p < 10 ^ 18) M ->
  first_nonzero_negative (written_chunks t0 (map subtract_chunk M) 0) = false.
Proof.
  intros Ht H. revert t0 Ht. induction H as [|[x y] M [Hx Hy] _ IH]; intros t0 Ht.
  - cbn. destruct (Z.eqb_spec (t0 + 0) 0); [lia|]. apply Z.ltb_ge. lia.
  - cbn [map subtract_chunk fst snd] in *.
    destruct (Z.ltb_spec x y); cbn [written_chunks first_nonzero_negative].
    + destruct (Z.eqb_spec (t0 + -1) 0); [apply IH; lia|]. apply Z.ltb_ge. lia.
    + destruct (Z.eqb_spec (t0 + 0) 0); [lia|]. apply Z.ltb_ge. lia.
Qed.

Lemma written_chunks_sign (M : list (Z * Z)) :
  Forall (fun p => 0 <= fst p < 10 ^ 18 /\ 0 <= snd p < 10 ^ 18) M ->
  first_nonzero_negative (written_chunks 0 (map subtract_chunk M) 0) = lex_lt M.
Proof.
  intros H. induction H as [|[x y] M [Hx Hy] HM IH]; [reflexivity|].
  cbn [map subtract_chunk fst snd lex_lt] in *.
  destruct (Z.ltb_spec x y) as [Hlt|Hge];
    cbn [written_chunks first_nonzero_negative]; [reflexivity|].
  cbn [Z.eqb Z.add]. destruct (Z.eqb_spec x y) as [->|Hne].
  - rewrite Z.sub_diag. exact IH.
  - apply written_chunks_positive; [lia|exact HM].
Qed.

Lemma lex_lt_eval (B : Z) (xs ys : list Z) :
  0 < B -> List.length xs = List.length ys ->
  Forall (fun v => 0 <= v < B) xs -> Forall (fun v => 0 <= v < B) ys ->
  lex_lt (combine xs ys) = (eval_msb B xs <? eval_msb B ys).
Proof.
  intros HB. revert ys. induction xs as [|x xs IH]; intros [|y ys] Hlen Hx Hy;
    try discriminate; [reflexivity|].
  inversion Hx as [|? ? Hx0 Hxs]; inversion Hy as [|? ? Hy0 Hys]; subst.
  injection Hlen as Hlen.
  cbn [combine lex_lt eval_msb]. rewrite (IH ys Hlen Hxs Hys), Hlen.
  pose proof (eval_msb_range B xs HB Hxs) as Rx.
  pose proof (eval_msb_range B ys HB Hys) as Ry. rewrite Hlen in Rx.
  set (P := B ^ Z.of_nat (List.length ys)) in *.
  destruct (Z.ltb_spec x y) as [Hlt|Hge].
  - symmetry. apply Z.ltb_lt. nia.
  - destruct (Z.eqb_spec x y) as [->|Hne].
    + destruct (Z.ltb_spec (eval_msb B xs) (eval_msb B ys));
        symmetry; [apply Z.ltb_lt | apply Z.ltb_ge]; lia.
    + symmetry. apply Z.ltb_ge. nia.
Qed.

(** *** [operate] with the subtraction chunk operation *)

Lemma combine_snoc {A B : Type} (l1 : list A) (l2 : list B) (x : A) (y : B) :
  List.length l1 = List.length l2 ->
  combine (l1 ++ [x]) (l2 ++ [y]) = (combine l1 l2 ++ [(x, y)])%list.
Proof.
  revert l2. induction l1 as [|a l1 IH]; intros [|b l2] H; try discriminate;
    [reflexivity|].
  cbn. f_equal. apply IH. now injection H.
Qed.

Lemma rev_combine {A B : Type} (l1 : list A) (l2 : list B) :
  List.length l1 = List.length l2 ->
  rev (combine l1 l2) = combine (rev l1) (rev l2).
Proof.
  revert l2. induction l1 as [|a l1 IH]; intros [|b l2] H; try discriminate;
    [reflexivity|].
  injection H as H. cbn [combine rev].
  rewrite combine_snoc by (now rewrite !length_rev). now rewrite IH.
Qed.

Lemma subtract_op_chunks_value (x y : Z) :
  LargeNumberSubtractOpUtils._op_chunks x y = Ok (subtract_chunk (x, y)).
Proof.
  unfold LargeNumberSubtractOpUtils._op_chunks, subtract_chunk.
  change (_chunk_size LargeNumberSubtractOpUtils.cls) with 18.
  now destruct (x <? y).
Qed.

Lemma first_degree_width :
  0 < _chunk_size LargeNumberFirstDegreeOpUtils < exact_quotient_bound.
Proof. split; reflexivity. Qed.

(** The string [operate] returns for a subtraction starts with ['-'] exactly
    when the first operand is the smaller one. *)
Lemma operate_subtract_sign (a b : string) :
  all_digits a = true -> all_digits b = true ->
  len a < exact_quotient_bound -> len b < exact_quotient_bound ->
  exists r,
    operate LargeNumberSubtractOpUtils.cls LargeNumberSubtractOpUtils._op_chunks a b = Ok r /\
    startswith_minus r = (value a <? value b).
Proof.
  intros Ha Hb Hla Hlb.
  pose proof first_degree_width as Hw.
  change LargeNumberSubtractOpUtils.cls with LargeNumberFirstDegreeOpUtils.
  set (cls := LargeNumberFirstDegreeOpUtils) in *.
  rewrite (operate_digits cls _ (fun x y => subtract_chunk (x, y)))
    by (try assumption; intros; apply subtract_op_chunks_value).
  eexists; split; [reflexivity|].
  pose proof (len_lstrip0 a) as Hsa. pose proof (len_lstrip0 b) as Hsb.
  destruct (chunk_values_spec cls a b a Hw Ha ltac:(lia) ltac:(lia)) as (Hna & Hra & Hva).
  destruct (chunk_values_spec cls a b b Hw Hb ltac:(lia) ltac:(lia)) as (Hnb & Hrb & Hvb).
  set (K := chunk_count cls a b) in *.
  set (xs := chunk_values cls K a) in *. set (ys := chunk_values cls K b) in *.
  change (_chunk_size cls) with 18 in *.
  rewrite assemble_written, <- map_rev, rev_combine, !rev_involutive
    by (rewrite !length_rev; congruence).
  change (_chunk_size cls) with 18.
  rewrite (map_ext _ subtract_chunk) by (now intros [x y]).
  assert (HM : Forall (fun p => 0 <= fst p < 10 ^ 18 /\ 0 <= snd p < 10 ^ 18)
                      (combine xs ys)).
  { apply Forall_forall. intros [x y] Hin. cbn [fst snd]. split.
    - apply in_combine_l in Hin. rewrite Forall_forall in Hra. now apply Hra.
    - apply in_combine_r in Hin. rewrite Forall_forall in Hrb. now apply Hrb. }
  rewrite written_sign by (apply written_chunks_lower_bound; [lia|exact HM]).
  rewrite written_chunks_sign by exact HM.
  rewrite (lex_lt_eval (10 ^ 18)) by (try assumption; try congruence; reflexivity).
  now rewrite Hva, Hvb.
Qed.

(** *** The comparison [_is_smaller] *)

Lemma digit_value_zero (c : ascii) :
  is_digit c = true -> c <> "0"%char -> 1 <= digit_value c.
Proof.
  unfold is_digit, digit_value, digit_of_ascii. intros Hd Hc.
  destruct (Z.leb_spec 48 (Z.of_nat (nat_of_ascii c))) as [H1|H1];
    destruct (Z.leb_spec (Z.of_nat (nat_of_ascii c)) 57) as [H2|H2];
    cbn [andb] in *; try discriminate.
  assert (nat_of_ascii c <> 48%nat); [|lia].
  intros Heq. apply Hc. rewrite <- (ascii_nat_embedding c), Heq. reflexivity.
Qed.

Lemma stripped_value (s : string) (c : ascii) (s' : string) :
  all_digits s = true -> lstrip0 s = String c s' ->
  value s = digit_value c * 10 ^ len s' + value s' /\ 1 <= digit_value c <= 9.
Proof.
  intros Hd Hs. rewrite <- (value_lstrip0 s), Hs, value_String.
  split; [reflexivity|].
  pose proof (all_digits_lstrip0 s Hd) as Hd'. rewrite Hs in Hd'.
  cbn in Hd'. apply Bool.andb_true_iff in Hd' as [Hc _].
  pose proof (digit_value_range c).
  pose proof (digit_value_zero c Hc (lstrip0_head s c s' Hs)). lia.
Qed.

Lemma value_zero_iff (s : string) :
  all_digits s = true -> (value s = 0 <-> lstrip0 s = "").
Proof.
  intros Hd. split; [|apply lstrip0_empty_value].
  intros Hv. destruct (lstrip0 s) as [|c s'] eqn:Hs; [reflexivity|exfalso].
  destruct (stripped_value s c s' Hd Hs) as [He Hc].
  pose proof (value_range s') as Hr.
  assert (0 < 10 ^ len s') by (apply Z.pow_pos_nonneg; [lia|apply len_nonneg]).
  nia.
Qed.

Lemma index_first (c : ascii) (s : string) : index (String c s) 0 = Ok (String c "").
Proof.
  unfold index. rewrite len_String. cbn [Z.ltb Z.compare].
  destruct (Z.leb_spec 0 0) as [_|?]; [|lia].
  destruct (Z.ltb_spec 0 (1 + len s)) as [_|?]; [reflexivity|].
  pose proof (len_nonneg s). lia.
Qed.

Lemma py_int_digit (c : ascii) :
  is_digit c = true -> py_int (String c "") = Ok (digit_value c).
Proof.
  intros Hc. rewrite py_int_digits; [|cbn; now rewrite Hc|discriminate].
  rewrite value_String. change (len "") with 0. change (value "") with 0.
  f_equal. lia.
Qed.

Lemma is_smaller_digits (a b : string) :
  all_digits a = true -> all_digits b = true ->
  (value a = 0 /\ value b = 0 ->
   LargeNumberSubtractOpUtils._is_smaller a b = Raise IndexError) /\
  (~ (value a = 0 /\ value b = 0) ->
   exists smaller, LargeNumberSubtractOpUtils._is_smaller a b = Ok smaller /\
                   (smaller = true -> value a < value b)).
Proof.
  intros Ha Hb. unfold LargeNumberSubtractOpUtils._is_smaller.
  rewrite (value_zero_iff a Ha), (value_zero_iff b Hb).
  pose proof (all_digits_lstrip0 a Ha) as Ha'.
  pose proof (all_digits_lstrip0 b Hb) as Hb'.
  pose proof (fun c s => stripped_value a c s Ha) as Hsa.
  pose proof (fun c s => stripped_value b c s Hb) as Hsb.
  pose proof (value_range a) as Hra. rewrite <- (value_lstrip0 a) in Hra.
  rewrite <- (value_lstrip0 a).
  destruct (lstrip0 a) as [|ca sa]; destruct (lstrip0 b) as [|cb sb].
  - split; [intros _; reflexivity|intros H; exfalso; now apply H].
  - split; [intros [_ H]; discriminate|intros _].
    exists true. split; [reflexivity|intros _].
    destruct (Hsb cb sb eq_refl) as [-> Hcb].
    pose proof (value_range sb).
    assert (0 < 10 ^ len sb) by (apply Z.pow_pos_nonneg; [lia|apply len_nonneg]).
    change (value "") with 0. nia.
  - split; [intros [H _]; discriminate|intros _].
    exists false. split; [|discriminate].
    rewrite len_String. change (len "") with 0.
    pose proof (len_nonneg sa).
    destruct (Z.gtb_spec 0 (1 + len sa)) as [?|_]; [lia|].
    destruct (Z.eqb_spec (1 + len sa) 0) as [?|_]; [lia|]. reflexivity.
  - split; [intros [H _]; discriminate|intros _].
    destruct (Hsa ca sa eq_refl) as [_ Hca].
    destruct (Hsb cb sb eq_refl) as [-> Hcb].
    rewrite value_String.
    pose proof (value_range sa) as Rsa. pose proof (value_range sb) as Rsb.
    pose proof (len_nonneg sa). pose proof (len_nonneg sb).
    cbn in Ha', Hb'.
    apply Bool.andb_true_iff in Ha' as [Hda _].
    apply Bool.andb_true_iff in Hb' as [Hdb _].
    rewrite !len_String.
    destruct (Z.gtb_spec (1 + len sb) (1 + len sa)) as [Hgt|Hle].
    + exists true. split; [reflexivity|intros _].
      assert (Hpow : 10 ^ len sb = 10 ^ (len sb - len sa - 1) * (10 * 10 ^ len sa)).
      { rewrite <- (Z.pow_succ_r 10 (len sa)), <- Z.pow_add_r by lia. f_equal; lia. }
      assert (0 < 10 ^ (len sb - len sa - 1)) by (apply Z.pow_pos_nonneg; lia).
      assert (0 < 10 ^ len sa) by (apply Z.pow_pos_nonneg; lia).
      nia.
    + destruct (Z.eqb_spec (1 + len sa) (1 + len sb)) as [Heq|Hne].
      * rewrite !index_first. cbn [bind].
        rewrite !py_int_digit by assumption. cbn [bind].
        assert (Hl : len sa = len sb) by lia. rewrite Hl in *.
        assert (0 < 10 ^ len sb) by (apply Z.pow_pos_nonneg; lia).
        destruct (Z.gtb_spec (digit_value cb) (digit_value ca)) as [Hd|Hd].
        -- exists true. split; [reflexivity|intros _]. nia.
        -- exists false. split; [reflexivity|discriminate].
      * exists false. split; [reflexivity|discriminate].
Qed.

Lemma digits_not_signed (s : string) :
  all_digits s = true -> startswith_minus s = false.
Proof.
  destruct s as [|c s]; [reflexivity|]. cbn [all_digits]. intros H.
  apply Bool.andb_true_iff in H as [Hc _].
  apply is_digit_not_sign in Hc as [Hm _].
  ascii_cases c; first [reflexivity | contradiction].
Qed.

(** On digit strings [subtract] never raises a [ValueError], neither the sign
    error nor an invalid literal. *)
Lemma subtract_digits_no_value_error (a b : string) :
  all_digits a = true -> all_digits b = true ->
  len a < exact_quotient_bound -> len b < exact_quotient_bound ->
  LargeNumberSubtractOpUtils.subtract a b <> Raise ValueError_sign /\
  LargeNumberSubtractOpUtils.subtract a b <> Raise ValueError_literal.
Proof.
  intros Ha Hb Hla Hlb.
  unfold LargeNumberSubtractOpUtils.subtract,
    LargeNumberSubtractOpUtils._check_non_negative.
  rewrite !digits_not_signed by assumption. cbn [bind].
  destruct (is_smaller_digits a b Ha Hb) as [Hzero Hnz].
  destruct (Z.eq_dec (value a) 0) as [Ea|Ea]; destruct (Z.eq_dec (value b) 0) as [Eb|Eb];
    try (rewrite (Hzero (conj Ea Eb)); split; discriminate);
    (destruct Hnz as (smaller & -> & _); [intros [? ?]; contradiction|]);
    cbn [bind]; destruct smaller;
    [ destruct (operate_subtract_sign b a Hb Ha Hlb Hla) as (r & -> & _)
    | destruct (operate_subtract_sign a b Ha Hb Hla Hlb) as (r & -> & _)
    | destruct (operate_subtract_sign b a Hb Ha Hlb Hla) as (r & -> & _)
    | destruct (operate_subtract_sign a b Ha Hb Hla Hlb) as (r & -> & _)
    | destruct (operate_subtract_sign b a Hb Ha Hlb Hla) as (r & -> & _)
    | destruct (operate_subtract_sign a b Ha Hb Hla Hlb) as (r & -> & _) ];
    split; discriminate.
Qed.

(** C3: for digit strings [a] and [b] (shorter than [2^52] characters),
    [subtract a b] raises [IndexError] when both denote zero, because
    [_is_smaller] indexes the first character of an empty stripped string;
    for every other pair it returns a string that starts with ['-'] exactly
    when the value of [a] is strictly less than the value of [b].  The sign
    is right even when [_is_smaller], which only looks at the leading digit
    of equal-length operands, answers [False] for a smaller [a]: the borrow
    out of the highest differing chunk is then written as
    [str(-1).zfill(18)], which puts a ['-'] in front. *)
Theorem subtract_sign_or_raise (a b : string) :
  all_digits a = true -> all_digits b = true ->
  len a < exact_quotient_bound -> len b < exact_quotient_bound ->
  (value a = 0 /\ value b = 0 ->
   LargeNumberSubtractOpUtils.subtract a b = Raise IndexError) /\
  (~ (value a = 0 /\ value b = 0) ->
   exists r, LargeNumberSubtractOpUtils.subtract a b = Ok r /\
             (startswith_minus r = true <-> value a < value b)).
Proof.
  intros Ha Hb Hla Hlb.
  unfold LargeNumberSubtractOpUtils.subtract,
    LargeNumberSubtractOpUtils._check_non_negative.
  rewrite !digits_not_signed by assumption. cbn [bind].
  destruct (is_smaller_digits a b Ha Hb) as [Hzero Hnz].
  split.
  - intros Hz. now rewrite (Hzero Hz).
  - intros Hz. destruct (Hnz Hz) as (smaller & -> & Hsm). cbn [bind].
    destruct smaller.
    + destruct (operate_subtract_sign b a Hb Ha Hlb Hla) as (r & -> & _).
      cbn [bind]. eexists; split; [reflexivity|]. cbn. split; auto.
    + destruct (operate_subtract_sign a b Ha Hb Hla Hlb) as (r & -> & Hr).
      exists r. split; [reflexivity|]. rewrite Hr. apply Z.ltb_lt.
Qed.


Lemma subtract_sign_or_raise_witness :
  LargeNumberSubtractOpUtils.subtract "0" "0" = Raise IndexError /\
  exists r, LargeNumberSubtractOpUtils.subtract "10" "19" = Ok r /\
            (startswith_minus r = true <-> value "10" < value "19").
Proof.
  split.
  - apply (subtract_sign_or_raise "0" "0"); try reflexivity. split; reflexivity.
  - apply (subtract_sign_or_raise "10" "19"); try reflexivity.
    intros [H _]. discriminate H.
Defined.

(** ** Which operands [subtract] rejects *)

(** On digit strings [subtract] returns a string unless both operands denote
    zero, and then the exception is an [IndexError]. *)
Lemma subtract_digits_outcome (a b : string) :
  all_digits a = true -> all_digits b = true ->
  len a < exact_quotient_bound -> len b < exact_quotient_bound ->
  (value a = 0 /\ value b = 0 /\
   LargeNumberSubtractOpUtils.subtract a b = Raise IndexError) \/
  (~ (value a = 0 /\ value b = 0) /\
   exists r, LargeNumberSubtractOpUtils.subtract a b = Ok r).
Proof.
  intros Ha Hb Hla Hlb.
  unfold LargeNumberSubtractOpUtils.subtract,
    LargeNumberSubtractOpUtils._check_non_negative.
  rewrite !digits_not_signed by assumption. cbn [bind].
  destruct (is_smaller_digits a b Ha Hb) as [Hzero Hnz].
  destruct (Z.eq_dec (value a) 0) as [Ea|Ea].
  - destruct (Z.eq_dec (value b) 0) as [Eb|Eb].
    + left. rewrite (Hzero (conj Ea Eb)). auto.
    + right. assert (Hz : ~ (value a = 0 /\ value b = 0)) by tauto.
      split; [exact Hz|].
      destruct (Hnz Hz) as (smaller & -> & _). cbn [bind].
      destruct smaller.
      * destruct (operate_subtract_sign b a Hb Ha Hlb Hla) as (r & -> & _).
        cbn [bind]. eexists; reflexivity.
      * destruct (operate_subtract_sign a b Ha Hb Hla Hlb) as (r & -> & _).
        eexists; reflexivity.
  - right. assert (Hz : ~ (value a = 0 /\ value b = 0)) by tauto.
    split; [exact Hz|].
    destruct (Hnz Hz) as (smaller & -> & _). cbn [bind].
    destruct smaller.
    + destruct (operate_subtract_sign b a Hb Ha Hlb Hla) as (r & -> & _).
      cbn [bind]. eexists; reflexivity.
    + destruct (operate_subtract_sign a b Ha Hb Hla Hlb) as (r & -> & _).
      eexists; reflexivity.
Qed.




(** ** Multiplying by zero *)

Lemma lstrip0_join_zeros (l : list string) :
  Forall (fun s => lstrip0 s = "") l -> lstrip0 (join l) = "".
Proof.
  intros H. induction H as [|s l Hs _ IH]; [reflexivity|].
  rewrite join_cons, lstrip0_append_zeros by exact Hs. exact IH.
Qed.

Lemma add_zero_strings (x y : string) :
  lstrip0 x = "" -> lstrip0 y = "" -> LargeNumberAddOpUtils.add x y = Ok "".
Proof.
  intros Hx Hy. unfold LargeNumberAddOpUtils.add, operate, _make_chunks.
  rewrite Hx, Hy. reflexivity.
Qed.

Lemma reduce_add_zero_strings (l : list string) (acc : string) :
  acc = "" -> Forall (fun s => lstrip0 s = "") l ->
  foldM LargeNumberAddOpUtils.add l acc = Ok "".
Proof.
  intros -> H. induction H as [|s l Hs _ IH]; [reflexivity|].
  cbn [foldM]. rewrite add_zero_strings by (try exact Hs; reflexivity).
  exact IH.
Qed.

Lemma mul_with_zero_chunks (num : list string) (digit : Z) :
  Forall (fun c => py_int c = Ok 0) num ->
  LargeNumberMulOpUtils._mul_with_chunk num digit = Ok "".
Proof.
  intros H. unfold LargeNumberMulOpUtils._mul_with_chunk.
  set (step := fun '(c, carry) chunk => _).
  assert (Hfold : forall c0, Forall (fun s => lstrip0 s = "") c0 ->
            exists c1, foldM step num (c0, 0) = Ok (c1, 0) /\
                       Forall (fun s => lstrip0 s = "") c1).
  { induction H as [|chunk num Hc _ IH]; intros c0 H0.
    - exists c0. split; [reflexivity|exact H0].
    - cbn [foldM]. unfold step at 1. rewrite Hc. cbn [bind].
      rewrite Z.mul_0_l, Z.add_0_l.
      change (py_mod 0 (_mod LargeNumberMulOpUtils.cls)) with (Ok (A := Z) 0).
      change (int_truediv 0 (_mod LargeNumberMulOpUtils.cls)) with (Ok (A := Z) 0).
      cbn [bind]. apply IH. apply Forall_app. split; [exact H0|].
      constructor; [reflexivity|constructor]. }
  destruct (Hfold [] (Forall_nil _)) as (c1 & -> & Hc1). cbn [bind].
  f_equal. change (py_str 0) with "0". cbn [append lstrip0].
  apply lstrip0_join_zeros, Forall_rev, Hc1.
Qed.

Lemma chunks_at_zero (wn : nat) (s : string) (K : nat) :
  (0 < wn)%nat -> lstrip0 s = "" -> String.length s = (K * wn)%nat ->
  Forall (fun c => py_int c = Ok 0) (chunks_at wn s K).
Proof.
  intros Hwn Hs Hlen.
  destruct (chunks_at_digits wn s K Hwn (lstrip0_empty_digits s Hs) Hlen) as (Hp & _).
  apply Forall_forall. intros c Hc.
  assert (Hz : lstrip0 c = "").
  { unfold chunks_at in Hc. apply in_map_iff in Hc as (j & <- & _).
    now apply lstrip0_take, lstrip0_drop. }
  assert (Hin : In (py_int c) (map py_int (chunks_at wn s K))) by now apply in_map.
  rewrite Hp, map_map in Hin. apply in_map_iff in Hin as (c' & Heq & Hc').
  rewrite <- Heq. f_equal.
  unfold chunks_at in Hc'. apply in_map_iff in Hc' as (j & <- & _).
  now apply lstrip0_empty_value, lstrip0_take, lstrip0_drop.
Qed.

Lemma enumerate_from_zeros (i : Z) (l : list string) (w : Z) :
  Forall (fun s => s = "") l ->
  Forall (fun s => lstrip0 s = "")
         (map (fun '(i, item) => item ++ str_mul (i * w) "0") (enumerate_from i l)).
Proof.
  intros H. revert i. induction H as [|s l -> _ IH]; intros i; [constructor|].
  cbn [enumerate_from map]. constructor; [|apply IH].
  cbn [append]. unfold str_mul.
  rewrite <- (append_empty_r (str_repeat _ _)). now rewrite lstrip0_zeros_append.
Qed.

(** C5: for every digit string [a] (shorter than [2^52] characters),
    [multiply a "0"] returns the empty string, not ["0"]: every partial
    product is a run of zeros, which [lstrip('0')] removes entirely, and
    adding empty strings gives the empty string. *)
Theorem multiply_by_zero_empty (a : string) :
  all_digits a = true -> len a < exact_quotient_bound ->
  LargeNumberMulOpUtils.multiply a "0" = Ok "".
Proof.
  intros Ha Hla. unfold LargeNumberMulOpUtils.multiply, _compute_target_len.
  pose proof (len_nonneg a) as Hna.
  change (len "0") with 1.
  set (cls := LargeNumberMulOpUtils.cls).
  assert (Hw : 0 < _chunk_size cls < exact_quotient_bound) by (split; reflexivity).
  set (n := Z.max (len a) 1).
  assert (Hn : 1 <= n < exact_quotient_bound) by (unfold n, exact_quotient_bound in *; lia).
  rewrite compute_divisible_len_exact by lia. cbn [bind].
  pose proof (Z.div_pos n (_chunk_size cls) ltac:(lia) ltac:(lia)) as Hq.
  set (K := Z.to_nat (n / _chunk_size cls + 1)).
  assert (HK : n / _chunk_size cls + 1 = Z.of_nat K) by (unfold K; lia).
  rewrite HK.
  pose proof (next_multiple_smallest_gt (_chunk_size cls) n ltac:(lia) ltac:(lia))
    as (_ & Hgt & _). rewrite HK in Hgt.
  rewrite !pad_split_chunks by (try assumption; try reflexivity; change (len "0") with 1; lia).
  cbn [bind].
  set (wn := Z.to_nat (_chunk_size cls)).
  assert (Hwn : (0 < wn)%nat) by (unfold wn; lia).
  assert (Hlen : forall s, len s <= n ->
            String.length (zfill s (Z.of_nat K * _chunk_size cls)) = (K * wn)%nat).
  { intros s Hle.
    pose proof (len_zfill s (Z.of_nat K * _chunk_size cls) ltac:(lia)) as Hz.
    unfold len in Hz. unfold wn. apply Nat2Z.inj. rewrite Hz, Nat2Z.inj_mul. lia. }
  set (t := Z.of_nat K * _chunk_size cls) in *.
  (* every chunk of ["0"] is a run of zeros *)
  assert (Hzero : Forall (fun c => py_int c = Ok 0) (rev (chunks_at wn (zfill "0" t) K))).
  { apply Forall_rev, chunks_at_zero; [exact Hwn| |apply Hlen; change (len "0") with 1; lia].
    now rewrite lstrip0_zfill. }
  (* every chunk of [a] is a number *)
  destruct (chunks_at_digits wn (zfill a t) K Hwn (all_digits_zfill a t Ha)
              (Hlen a ltac:(lia))) as (Hpa & _).
  rewrite (mapM_Ok _ (fun _ => "")).
  - cbn [bind]. unfold enumerate.
    assert (HKpos : (0 < K)%nat) by lia.
    pose proof (length_chunks_at wn (zfill a t) K) as Hlc.
    destruct (rev (chunks_at wn (zfill a t) K)) as [|c0 cs] eqn:Hrev.
    { apply (f_equal (@List.length string)) in Hrev.
      rewrite length_rev, Hlc in Hrev. cbn in Hrev. lia. }
    cbn [map enumerate_from py_reduce].
    apply reduce_add_zero_strings; [reflexivity|].
    apply enumerate_from_zeros. apply Forall_forall.
    intros s Hs. apply in_map_iff in Hs as (? & <- & _). reflexivity.
  - intros c Hc. apply in_rev in Hc.
    assert (Hin : In (py_int c) (map py_int (chunks_at wn (zfill a t) K))) by now apply in_map.
    rewrite Hpa in Hin. apply in_map_iff in Hin as (v & <- & _). cbn [bind].
    now apply mul_with_zero_chunks.
Qed.

Lemma multiply_by_zero_empty_witness :
  LargeNumberMulOpUtils.multiply "5" "0" = Ok "".
Proof. apply multiply_by_zero_empty; reflexivity. Defined.

(** ** Additions without a rounded-up carry *)

(** *** [str] of a non-negative number *)

Lemma of_uint_acc_value (u : Decimal.uint) (acc : positive) :
  Zpos (Pos.of_uint_acc u acc) = value_from (Zpos acc) (NilEmpty.string_of_uint u).
Proof.
  revert acc. induction u; intros acc;
    cbn [Pos.of_uint_acc NilEmpty.string_of_uint value_from];
    [reflexivity|..];
    rewrite IHu; f_equal;
    match goal with
    | |- context [digit_of_ascii ?c] =>
        let v := eval vm_compute in (digit_of_ascii c) in
        change (digit_of_ascii c) with v
    end; lia.
Qed.

Lemma of_uint_value (u : Decimal.uint) :
  Z.of_N (Pos.of_uint u) = value (NilEmpty.string_of_uint u).
Proof.
  unfold value.
  induction u; cbn [Pos.of_uint NilEmpty.string_of_uint value_from];
    [reflexivity|..];
    match goal with
    | |- context [digit_of_ascii ?c] =>
        let v := eval vm_compute in (digit_of_ascii c) in
        change (digit_of_ascii c) with v
    end;
    [exact IHu|..]; cbn [Z.of_N]; rewrite of_uint_acc_value; reflexivity.
Qed.

Lemma py_str_value (n : Z) :
  0 <= n -> all_digits (py_str n) = true /\ value (py_str n) = n.
Proof.
  intros Hn. destruct n as [|p|p]; [split; reflexivity| |lia].
  unfold py_str. cbn [Z.to_int NilZero.string_of_int].
  assert (Hs : NilZero.string_of_uint (Pos.to_uint p)
               = NilEmpty.string_of_uint (Pos.to_uint p)).
  { pose proof (Unsigned.to_uint_nonnil p) as Hnil.
    unfold NilZero.string_of_uint. now destruct (Pos.to_uint p). }
  rewrite Hs. split; [apply string_of_uint_digits|].
  now rewrite <- of_uint_value, Unsigned.of_to.
Qed.

Lemma stripped_length (s : string) (n : Z) :
  all_digits s = true -> lstrip0 s = s -> 0 <= n -> value s < 10 ^ n -> len s <= n.
Proof.
  intros Hd Hs Hn Hv. destruct s as [|c s']; [exact Hn|].
  destruct (stripped_value _ c s' Hd Hs) as [He Hc].
  pose proof (value_range s') as Hr. pose proof (len_nonneg s') as Hl.
  rewrite len_String.
  assert (len s' < n); [|lia].
  apply (Z.pow_lt_mono_r_iff 10); [lia|lia|].
  assert (0 < 10 ^ len s') by (apply Z.pow_pos_nonneg; lia). nia.
Qed.

Lemma py_str_stripped (n : Z) : 0 < n -> lstrip0 (py_str n) = py_str n.
Proof.
  intros Hn. destruct (py_str_positive n Hn) as (c & s & -> & Hc & _).
  now apply lstrip0_not_zero.
Qed.

(** A chunk below [10^18] is written with exactly 18 digits. *)
Lemma written_chunk_digits (n : Z) :
  0 <= n < 10 ^ 18 ->
  all_digits (zfill (py_str n) 18) = true /\
  len (zfill (py_str n) 18) = 18 /\
  value (zfill (py_str n) 18) = n.
Proof.
  intros Hn. destruct (py_str_value n ltac:(lia)) as [Hd Hv].
  assert (Hlen : len (py_str n) <= 18).
  { destruct (Z.eq_dec n 0) as [->|Hne]; [cbn; lia|].
    apply stripped_length; [exact Hd|apply py_str_stripped; lia|lia|].
    rewrite Hv. lia. }
  repeat split.
  - now apply all_digits_zfill.
  - now apply len_zfill.
  - now rewrite value_zfill.
Qed.

Lemma join_written_chunks (l : list Z) :
  Forall (fun n => 0 <= n < 10 ^ 18) l ->
  let s := join (map (fun n => zfill (py_str n) 18) l) in
  all_digits s = true /\ len s = 18 * Z.of_nat (List.length l) /\
  value s = eval_msb (10 ^ 18) l.
Proof.
  intros H. induction H as [|n l Hn _ IH]; [repeat split|].
  cbn zeta in *. cbn [map eval_msb List.length]. rewrite join_cons.
  destruct IH as (IHd & IHl & IHv).
  destruct (written_chunk_digits n Hn) as (Hd & Hl & Hv).
  repeat split.
  - now rewrite all_digits_append, Hd, IHd.
  - rewrite len_append, Hl, IHl. lia.
  - rewrite value_append, Hv, IHv, IHl, Z.pow_mul_r by lia. reflexivity.
Qed.

(** *** The value of the written chunks *)

Lemma length_written_chunks (t0 : Z) (M : list (Z * Z)) (cend : Z) :
  List.length (written_chunks t0 M cend) = S (List.length M).
Proof.
  revert t0. induction M as [|[t cr] M IH]; intros t0; [reflexivity|].
  cbn [written_chunks List.length]. now rewrite IH.
Qed.

Lemma eval_written_chunks (B t0 : Z) (M : list (Z * Z)) (cend : Z) :
  eval_msb B (written_chunks t0 M cend)
  = t0 * B ^ Z.of_nat (List.length M)
    + eval_msb B (map (fun p => fst p + B * snd p) M) + cend.
Proof.
  revert t0. induction M as [|[t cr] M IH]; intros t0.
  - cbn. lia.
  - cbn [written_chunks eval_msb map List.length fst snd].
    rewrite IH, length_written_chunks, length_map.
    rewrite !Nat2Z.inj_succ, !Z.pow_succ_r by lia. lia.
Qed.

Lemma eval_msb_add (B : Z) (xs ys : list Z) :
  List.length xs = List.length ys ->
  eval_msb B (map (fun p => fst p + snd p) (combine xs ys))
  = eval_msb B xs + eval_msb B ys.
Proof.
  revert ys. induction xs as [|x xs IH]; intros [|y ys] Hlen; try discriminate;
    [reflexivity|].
  injection Hlen as Hlen. cbn [combine map eval_msb fst snd].
  rewrite IH by exact Hlen. rewrite length_map, length_combine, <- Hlen, Nat.min_id.
  lia.
Qed.

(** Without rounded-up carries every written chunk stays below [10^18]. *)
Lemma written_chunks_add_range (t0 : Z) (M : list (Z * Z)) :
  0 <= t0 < 10 ^ 18 - 55 ->
  Forall (fun p => 0 <= fst p < 10 ^ 18 /\ 0 <= snd p < 10 ^ 18) M ->
  Forall (fun p => carry_rounds_up (fst p + snd p) = false) M ->
  Forall (fun n => 0 <= n < 10 ^ 18) (written_chunks t0 (map add_chunk M) 0).
Proof.
  intros Ht HM. revert t0 Ht.
  induction HM as [|[x y] M [Hx Hy] _ IH]; intros t0 Ht Hw.
  - cbn. constructor; [lia|constructor].
  - inversion Hw as [|? ? Hw0 HwM]; subst. cbn [fst snd] in *.
    cbn [map add_chunk written_chunks].
    unfold carry_rounds_up in Hw0.
    change (10 ^ 18) with 1000000000000000000 in *.
    pose proof (Z.div_mod (x + y) 1000000000000000000 ltac:(lia)) as Hdm.
    pose proof (Z.mod_pos_bound (x + y) 1000000000000000000 ltac:(lia)) as Hr.
    assert (Hq : 0 <= (x + y) / 1000000000000000000 <= 1).
    { split; [apply Z.div_pos; lia|].
      assert ((x + y) / 1000000000000000000 < 2); [|lia].
      apply Z.div_lt_upper_bound; lia. }
    apply Bool.orb_false_iff in Hw0 as [Hw1 Hw2].
    apply Z.leb_gt in Hw2.
    assert (Hmod : (x + y) mod 1000000000000000000 < 1000000000000000000 - 55).
    { apply Bool.andb_false_iff in Hw1 as [Hw1|Hw1];
        [apply Z.leb_gt in Hw1 | apply Z.ltb_ge in Hw1]; lia. }
    constructor; [lia|]. apply IH; [lia|exact HwM].
Qed.

(** *** The exact sum *)

Lemma lstrip0_idempotent (s : string) : lstrip0 (lstrip0 s) = lstrip0 s.
Proof.
  induction s as [|c s IH]; [reflexivity|].
  ascii_cases c; try reflexivity. exact IH.
Qed.

Lemma add_chunk_sum (p : Z * Z) :
  fst (add_chunk p) + 10 ^ 18 * snd (add_chunk p) = fst p + snd p.
Proof.
  destruct p as [x y]. cbn [add_chunk fst snd].
  pose proof (Z.div_mod (x + y) (10 ^ 18) ltac:(lia)). lia.
Qed.

(** When no aligned chunk pair sums into one of the two rounding windows,
    [add] returns the digits of the exact sum without leading zeros (the
    empty string for zero), at most one digit longer than the longer
    operand. *)
Lemma add_exact_outside_rounding (a b : string) :
  all_digits a = true -> all_digits b = true ->
  len a < exact_quotient_bound -> len b < exact_quotient_bound ->
  let K := chunk_count LargeNumberFirstDegreeOpUtils a b in
  Forall (fun p => carry_rounds_up (fst p + snd p) = false)
         (combine (chunk_values LargeNumberFirstDegreeOpUtils K a)
                  (chunk_values LargeNumberFirstDegreeOpUtils K b)) ->
  exists r,
    LargeNumberAddOpUtils.add a b = Ok r /\
    all_digits r = true /\ lstrip0 r = r /\
    value r = value a + value b /\
    len r <= Z.max (len a) (len b) + 1.
Proof.
  intros Ha Hb Hla Hlb K Hwin.
  pose proof first_degree_width as Hw.
  unfold LargeNumberAddOpUtils.add.
  change LargeNumberAddOpUtils.cls with LargeNumberFirstDegreeOpUtils.
  set (cls := LargeNumberFirstDegreeOpUtils) in *.
  rewrite (operate_digits cls _
             (fun x y => ((x + y) mod 10 ^ 18,
                          (x + y) / 10 ^ 18
                          + (if carry_rounds_up (x + y) then 1 else 0))))
    by (try assumption; intros; now apply add_op_chunks_carry_closed).
  fold K.
  pose proof (len_lstrip0 a) as Hsa. pose proof (len_lstrip0 b) as Hsb.
  destruct (chunk_values_spec cls a b a Hw Ha ltac:(lia) ltac:(lia)) as (Hna & Hra & Hva).
  destruct (chunk_values_spec cls a b b Hw Hb ltac:(lia) ltac:(lia)) as (Hnb & Hrb & Hvb).
  fold K in Hna, Hra, Hva, Hnb, Hrb, Hvb.
  set (xs := chunk_values cls K a) in *. set (ys := chunk_values cls K b) in *.
  change (_chunk_size cls) with 18 in *.
  eexists; split; [reflexivity|].
  rewrite assemble_written, <- map_rev, rev_combine, !rev_involutive
    by (rewrite !length_rev; congruence).
  change (_chunk_size cls) with 18.
  rewrite (map_ext_in _ add_chunk).
  2:{ intros [x y] Hin. rewrite Forall_forall in Hwin.
      specialize (Hwin (x, y) Hin). cbn [fst snd] in *.
      rewrite Hwin. cbn [add_chunk]. now rewrite Z.add_0_r. }
  assert (HM : Forall (fun p => 0 <= fst p < 10 ^ 18 /\ 0 <= snd p < 10 ^ 18)
                      (combine xs ys)).
  { apply Forall_forall. intros [x y] Hin. cbn [fst snd]. split.
    - apply in_combine_l in Hin. rewrite Forall_forall in Hra. now apply Hra.
    - apply in_combine_r in Hin. rewrite Forall_forall in Hrb. now apply Hrb. }
  pose proof (written_chunks_add_range 0 (combine xs ys) ltac:(lia) HM Hwin) as Hrange.
  destruct (join_written_chunks _ Hrange) as (Hd & _ & Hv).
  set (S := join _) in *.
  assert (Hval : value (lstrip0 S) = value a + value b).
  { rewrite value_lstrip0, Hv, eval_written_chunks, map_map.
    rewrite (map_ext _ (fun p => fst p + snd p)) by (intros p; apply add_chunk_sum).
    rewrite eval_msb_add by congruence. rewrite Hva, Hvb. lia. }
  split; [now apply all_digits_lstrip0|].
  split; [apply lstrip0_idempotent|].
  split; [exact Hval|].
  pose proof (len_nonneg a) as Hpa. pose proof (len_nonneg b) as Hpb.
  apply stripped_length;
    [now apply all_digits_lstrip0 | apply lstrip0_idempotent | lia |].
  rewrite Hval.
  pose proof (value_range a) as Rva. pose proof (value_range b) as Rvb.
  set (n := Z.max (len a) (len b)).
  assert (Hpa' : 10 ^ len a <= 10 ^ n) by (apply Z.pow_le_mono_r; lia).
  assert (Hpb' : 10 ^ len b <= 10 ^ n) by (apply Z.pow_le_mono_r; lia).
  rewrite Z.pow_add_r by lia. change (10 ^ 1) with 10.
  assert (0 < 10 ^ n) by (apply Z.pow_pos_nonneg; lia).
  lia.
Qed.

(** ** Leading zeros of a factor *)

Lemma str_repeat_zeros_append (n k : nat) (s : string) :
  str_repeat n "0" ++ str_repeat k "0" ++ s = str_repeat (n + k) "0" ++ s.
Proof. induction n as [|n IH]; [reflexivity|]. cbn. now rewrite IH. Qed.

Lemma zfill_leading_zeros (k : nat) (s : string) (width : Z) :
  all_digits s = true -> len (str_repeat k "0" ++ s) <= width ->
  zfill (str_repeat k "0" ++ s) width = zfill s width.
Proof.
  intros Hd Hle. rewrite len_append in Hle.
  assert (Hk : len (str_repeat k "0") = Z.of_nat k)
    by (unfold len; now rewrite length_str_repeat_char).
  pose proof (len_nonneg s) as Hs.
  rewrite !zfill_digits
    by (rewrite ?all_digits_append, ?all_digits_zeros; assumption).
  unfold str_mul. rewrite len_append, Hk, str_repeat_zeros_append.
  do 2 f_equal. lia.
Qed.

(** X14: leading zeros of the first factor do not matter as long as they do
    not change the number of chunks. *)
Lemma multiply_leading_zeros_same_chunks (k : nat) (a b : string) :
  all_digits a = true ->
  len (str_repeat k "0" ++ a) < exact_quotient_bound ->
  len b < exact_quotient_bound ->
  Z.max (len (str_repeat k "0" ++ a)) (len b) / 9 = Z.max (len a) (len b) / 9 ->
  LargeNumberMulOpUtils.multiply (str_repeat k "0" ++ a) b
  = LargeNumberMulOpUtils.multiply a b.
Proof.
  intros Hd Hla Hlb Hq. unfold LargeNumberMulOpUtils.multiply, _compute_target_len.
  set (cls := LargeNumberMulOpUtils.cls).
  assert (Hw : 0 < _chunk_size cls < exact_quotient_bound) by (split; reflexivity).
  pose proof (len_nonneg a) as Hna. pose proof (len_nonneg b) as Hnb.
  assert (Hlen : len a <= len (str_repeat k "0" ++ a)).
  { rewrite len_append. pose proof (len_nonneg (str_repeat k "0")). lia. }
  rewrite !compute_divisible_len_exact by lia.
  change (_chunk_size cls) with 9. rewrite Hq. cbn [bind].
  set (n := Z.max (len (str_repeat k "0" ++ a)) (len b)) in *.
  pose proof (next_multiple_smallest_gt 9 n ltac:(lia) ltac:(lia)) as (_ & Hgt & _).
  rewrite Hq in Hgt.
  unfold _pad_split_and_reverse at 1 3.
  rewrite zfill_leading_zeros by (try assumption; lia). reflexivity.
Qed.

Lemma multiply_leading_zeros_same_chunks_witness :
  LargeNumberMulOpUtils.multiply (str_repeat 2 "0" ++ "123") "45"
  = LargeNumberMulOpUtils.multiply "123" "45".
Proof.
  apply (multiply_leading_zeros_same_chunks 2 "123" "45"); reflexivity.
Defined.

(** ** Behaviour at particular operands *)

(** For the chunk pair [(999999999999999999, 0)] the chunk sum is
    [10^18 - 1], whose integer quotient by [10^18] is 0, but [_op_chunks]
    takes the quotient through a binary64 value, which rounds
    [0.999999999999999999] up to [1.0]: the carry it returns is 1.  The kept
    value is the exact remainder. *)
Lemma add_op_chunks_carry_rounds_up :
  LargeNumberAddOpUtils._op_chunks 999999999999999999 0
    = Ok (999999999999999999, 1) /\
  (999999999999999999 + 0) mod 10 ^ 18 = 999999999999999999 /\
  (999999999999999999 + 0) / 10 ^ 18 = 0.
Proof. repeat split; vm_compute; reflexivity. Qed.

(** C1: [add] is not exact.  On ["999999999999999999"] and ["0"] the carry
    out of the low chunk is wrongly 1 and the result is
    ["1999999999999999999"], not the decimal string of the sum; on ["0"] and
    ["0"] the result is the empty string, not ["0"]; and on fifty-four nines
    and ["1"] the result has 57 digits, three more than the longer operand,
    because a chunk that reaches [10^18] is written with 19 digits. *)
Theorem add_not_exact :
  LargeNumberAddOpUtils.add "999999999999999999" "0" = Ok "1999999999999999999" /\
  py_str (value "999999999999999999" + value "0") = "999999999999999999" /\
  LargeNumberAddOpUtils.add "0" "0" = Ok "" /\
  py_str (value "0" + value "0") = "0" /\
  LargeNumberAddOpUtils.add
    "999999999999999999999999999999999999999999999999999999" "1"
    = Ok "110000000000000000001000000000000000000000000000000000000" /\
  len "999999999999999999999999999999999999999999999999999999" = 54 /\
  len "110000000000000000001000000000000000000000000000000000000" = 57.
Proof. repeat split; vm_compute; reflexivity. Qed.

(** C2: adding and then subtracting the same operand does not give the first
    operand back: from ["999999999999999999"] and ["0"] the round trip ends in
    ["1999999999999999999"]; from ["0"] and ["5"] it ends in the empty
    string; from ["0"] and ["0"] the subtraction raises. *)
Theorem subtract_add_round_trip_fails :
  (s <- LargeNumberAddOpUtils.add "999999999999999999" "0" ;;
   LargeNumberSubtractOpUtils.subtract s "0") = Ok "1999999999999999999" /\
  (s <- LargeNumberAddOpUtils.add "0" "5" ;;
   LargeNumberSubtractOpUtils.subtract s "5") = Ok "" /\
  (s <- LargeNumberAddOpUtils.add "0" "0" ;;
   LargeNumberSubtractOpUtils.subtract s "0") = Raise IndexError.
Proof. repeat split; vm_compute; reflexivity. Qed.

(** [subtract "0" "0"] has no result whose sign could be looked at: both
    operands strip to the empty string and [_is_smaller] indexes its first
    character.  On ["10"] and ["19"] the leading digits tie, [_is_smaller]
    answers [False], and the ['-'] in front of the result is the borrow
    written out. *)
Lemma subtract_zero_zero_raises :
  LargeNumberSubtractOpUtils._is_smaller "0" "0" = Raise IndexError /\
  LargeNumberSubtractOpUtils.subtract "0" "0" = Raise IndexError /\
  LargeNumberSubtractOpUtils._is_smaller "10" "19" = Ok false /\
  LargeNumberSubtractOpUtils.subtract "10" "19"
    = Ok "-00000000000000001999999999999999991".
Proof. repeat split; vm_compute; reflexivity. Qed.

(** C6: for every base, [large_number_pow num "0"] folds the empty list
    [[num] * 0] without an initial value, which raises [TypeError]; it does
    not return ["1"]. *)
Theorem power_zero_raises (num : string) :
  large_number_pow num "0" = Raise TypeError_reduce /\
  LargeNumberOpsHelper.large_number_pow num "0" = Raise TypeError_reduce.
Proof. split; reflexivity. Qed.

(** C9: [subtract] of [10^36] and [1] returns a string with a ['-'] in its
    second position: the borrow into the middle chunk is written out as
    [str(-1).zfill(18)] instead of being propagated.  On ["10"] and ["19"]
    the sign is followed by zeros. *)
Theorem subtract_embedded_sign :
  all_digits "1000000000000000000000000000000000000" = true /\
  all_digits "1" = true /\
  LargeNumberSubtractOpUtils.subtract "1000000000000000000000000000000000000" "1"
    = Ok "1-00000000000000001999999999999999999" /\
  well_formed "1-00000000000000001999999999999999999" = false /\
  LargeNumberSubtractOpUtils.subtract "10" "19"
    = Ok "-00000000000000001999999999999999991" /\
  well_formed "-00000000000000001999999999999999991" = false.
Proof. repeat split; vm_compute; reflexivity. Qed.

(** C10: prepending nine ['0'] characters to the first operand changes the
    product: the extra zero chunk adds one more call of [add], which again
    rounds the carry out of the chunk [999999999999999999] up to 1. *)
Theorem multiply_leading_zeros_change_result :
  LargeNumberMulOpUtils.multiply "999999999" "1000000001"
    = Ok "1999999999999999999" /\
  LargeNumberMulOpUtils.multiply ("000000000" ++ "999999999") "1000000001"
    = Ok "2999999999999999999".
Proof. split; vm_compute; reflexivity. Qed.

(** * The number-theory helpers *)

(** ** True division of a multiple, and the truncated square root *)

(** When [b] divides the numerator and the quotient has at most 53 bits, the
    binary64 quotient is that integer. *)
Lemma int_truediv_divisible (q b : Z) :
  0 < b -> 0 <= q < 2 ^ 53 -> int_truediv (q * b) b = Ok q.
Proof.
  intros Hb [Hq0 Hq]. unfold int_truediv.
  destruct (Z.eqb_spec b 0) as [?|_]; [lia|].
  destruct (Z.eqb_spec (q * b) 0) as [H0|Hne]; [f_equal; nia|].
  assert (Hqpos : 0 < q) by nia.
  rewrite (Z.abs_eq (q * b)), (Z.abs_eq b) by nia.
  unfold float_quotient.
  pose proof (quot_exponent_lower (q * b) b ltac:(nia) Hb) as Hl.
  pose proof (quot_exponent_upper (q * b) b ltac:(nia) Hb) as Hu.
  cbv zeta in Hl, Hu.
  set (E := quot_exponent (q * b) b) in *.
  assert (HE : 0 <= E <= 52).
  { split.
    - destruct (Z_lt_le_dec E 0) as [Hneg|?]; [exfalso|assumption].
      replace (Z.max 0 (E + 1)) with 0 in Hu by lia.
      replace (Z.max 0 (- (E + 1))) with (- (E + 1)) in Hu by lia.
      assert (0 < 2 ^ (- (E + 1))) by (apply Z.pow_pos_nonneg; lia).
      rewrite Z.pow_0_r in Hu. nia.
    - destruct (Z_lt_le_dec 52 E) as [Hbig|?]; [exfalso|lia].
      replace (Z.max 0 E) with E in Hl by lia.
      replace (Z.max 0 (- E)) with 0 in Hl by lia.
      rewrite Z.pow_0_r in Hl.
      assert (2 ^ 53 <= 2 ^ E) by (apply Z.pow_le_mono_r; lia).
      nia. }
  replace (Z.max (E - 52) (-1074)) with (E - 52) by lia.
  replace (Z.max 0 (- (E - 52))) with (52 - E) by lia.
  replace (Z.max 0 (E - 52)) with 0 by lia.
  rewrite Z.pow_0_r, Z.mul_1_r.
  assert (HP : 0 < 2 ^ (52 - E)) by (apply Z.pow_pos_nonneg; lia).
  assert (Hm : round_half_even (q * b * 2 ^ (52 - E)) b = q * 2 ^ (52 - E)).
  { unfold round_half_even.
    replace (q * b * 2 ^ (52 - E)) with (q * 2 ^ (52 - E) * b) by lia.
    rewrite Z.div_mul, Z.mod_mul by lia.
    destruct (Z.ltb_spec (2 * 0) b); [reflexivity|lia]. }
  rewrite Hm.
  unfold float_overflows, float_trunc.
  destruct (Z.ltb_spec 971 (E - 52)) as [?|_]; [lia|].
  destruct (Z.eqb_spec (E - 52) 971) as [?|_]; [lia|].
  cbn [orb andb].
  replace (Z.sgn (q * b) * Z.sgn b) with 1
    by (rewrite !Z.sgn_pos by nia; lia).
  rewrite Z.mul_1_l. f_equal.
  destruct (Z.leb_spec 0 (E - 52)) as [Hz|Hz].
  - replace (E - 52) with 0 by lia. replace (52 - E) with 0 by lia.
    rewrite Z.pow_0_r. lia.
  - replace (- (E - 52)) with (52 - E) by lia. apply Z.div_mul. lia.
Qed.

(** Rounding the scaled square root and dividing by the scale gives the
    integer square root when the scale exceeds it. *)
Lemma round_sqrt_scale_down (x P : Z) :
  0 <= x -> 0 < P -> Z.sqrt x + 1 <= P ->
  let N := x * (P * P) in
  let r := Z.sqrt N in
  (if r <? N - r * r then r + 1 else r) / P = Z.sqrt x.
Proof.
  intros Hx HP Hk N r.
  pose proof (Z.sqrt_spec x Hx) as Hs. cbv zeta in Hs.
  pose proof (Z.sqrt_nonneg x) as Hk0.
  set (k := Z.sqrt x) in *.
  assert (HN : 0 <= N) by (unfold N; nia).
  pose proof (Z.sqrt_spec N HN) as Hr. cbv zeta in Hr. fold r in Hr.
  pose proof (Z.sqrt_nonneg N) as Hr0. fold r in Hr0.
  assert (Hlow : k * P <= r).
  { apply Z.sqrt_le_square; unfold N; nia. }
  assert (Hup : r < (k + 1) * P).
  { apply Z.sqrt_lt_square; unfold N; nia. }
  symmetry.
  destruct (Z.ltb_spec r (N - r * r)) as [Hround|Hkeep].
  - apply Z.div_unique with (r := r + 1 - k * P); [|lia].
    left. split; [lia|].
    assert (r + 1 < (k + 1) * P \/ r + 1 = (k + 1) * P) as [?|Heq] by lia; [lia|].
    exfalso. unfold N in *. nia.
  - apply Z.div_unique with (r := r - k * P); [|lia].
    left. lia.
Qed.

(** Below [2^52] the detour through binary64 is harmless: [int(sqrt(n))] is
    the integer square root. *)
Lemma int_sqrt_exact (n : Z) :
  0 <= n < 2 ^ 52 -> int_sqrt n = Returns (Z.sqrt n).
Proof.
  intros [Hn0 Hn]. unfold int_sqrt.
  destruct (Z.ltb_spec n 0) as [?|_]; [lia|].
  destruct (Z.eqb_spec n 0) as [->|Hne]; [reflexivity|].
  assert (Hl : 0 <= Z.log2 n < 52).
  { split; [apply Z.log2_nonneg|]. apply Z.log2_lt_pow2; lia. }
  unfold float_of_int.
  destruct (Z.ltb_spec (Z.log2 n) 53) as [_|?]; [|lia].
  unfold float_overflows. cbn [Z.ltb Z.eqb Z.compare orb andb].
  unfold float_sqrt, float_trunc. rewrite Z.add_0_r.
  pose proof (Z.div_pos (Z.log2 n) 2 ltac:(lia) ltac:(lia)) as HE0.
  assert (HE : Z.log2 n / 2 < 26) by (apply Z.div_lt_upper_bound; lia).
  set (E := Z.log2 n / 2) in *.
  destruct (Z.leb_spec 0 (- (52 - E))) as [?|_]; [lia|].
  replace (- - (52 - E)) with (52 - E) by lia.
  replace (0 + 2 * (52 - E)) with ((52 - E) + (52 - E)) by lia.
  rewrite Z.pow_add_r by lia.
  f_equal. apply round_sqrt_scale_down; [lia|apply Z.pow_pos_nonneg; lia|].
  (* [sqrt n < 2^26 < 2^(52 - E)] *)
  assert (Z.sqrt n < 2 ^ 26).
  { apply Z.sqrt_lt_square; [lia|lia|]. change (2 ^ 26 * 2 ^ 26) with (2 ^ 52). lia. }
  assert (2 ^ 27 <= 2 ^ (52 - E)) by (apply Z.pow_le_mono_r; lia).
  change (2 ^ 26) with 67108864 in *. change (2 ^ 27) with 134217728 in *. lia.
Qed.

(** ** [sum_of_natural_numbers] and [sum_of_squares_of_natural_numbers] *)

Lemma sum_upto_closed (n : nat) : 2 * sum_upto n = Z.of_nat n * (Z.of_nat n + 1).
Proof. induction n as [|n IH]; [reflexivity|]. cbn [sum_upto]. lia. Qed.

Lemma sum_squares_upto_closed (n : nat) :
  6 * sum_squares_upto n = Z.of_nat n * (Z.of_nat n + 1) * (2 * Z.of_nat n + 1).
Proof. induction n as [|n IH]; [reflexivity|]. cbn [sum_squares_upto]. lia. Qed.

Lemma sum_upto_nonneg (n : nat) : 0 <= sum_upto n.
Proof. induction n as [|n IH]; cbn [sum_upto]; lia. Qed.

Lemma sum_squares_upto_nonneg (n : nat) : 0 <= sum_squares_upto n.
Proof. induction n as [|n IH]; cbn [sum_squares_upto]; nia. Qed.

(** X1: [sum_of_natural_numbers n] raises its [ValueError] for a negative
    [n]; for [n >= 0] it returns [1 + 2 + ... + n] as long as that sum is
    below [2^53], so that the float quotient [n * (n + 1) / 2] is the exact
    integer. *)
Theorem sum_of_natural_numbers_exact (n : Z) :
  (n < 0 -> sum_of_natural_numbers n = Raises ValueError_non_negative) /\
  (0 <= n -> sum_upto (Z.to_nat n) < 2 ^ 53 ->
   sum_of_natural_numbers n = Returns (sum_upto (Z.to_nat n))).
Proof.
  unfold sum_of_natural_numbers. split.
  { intros Hn. destruct (Z.ltb_spec n 0) as [_|?]; [reflexivity|lia]. }
  intros Hn Hb.
  destruct (Z.ltb_spec n 0) as [?|_]; [lia|].
  pose proof (sum_upto_closed (Z.to_nat n)) as Hc. rewrite Z2Nat.id in Hc by lia.
  replace (n * (n + 1)) with (sum_upto (Z.to_nat n) * 2) by lia.
  rewrite int_truediv_divisible; [reflexivity|lia|].
  split; [apply sum_upto_nonneg|exact Hb].
Qed.

Lemma sum_of_natural_numbers_exact_witness :
  sum_of_natural_numbers (-1) = Raises ValueError_non_negative /\
  sum_of_natural_numbers 100 = Returns 5050.
Proof.
  split.
  - apply (proj1 (sum_of_natural_numbers_exact (-1))). reflexivity.
  - apply (proj2 (sum_of_natural_numbers_exact 100)); [discriminate|reflexivity].
Defined.

(** X2: [sum_of_squares_of_natural_numbers n] raises its [ValueError] for a
    negative [n]; for [n >= 0] it returns [1^2 + 2^2 + ... + n^2] as long as
    that sum is below [2^53]. *)
Theorem sum_of_squares_of_natural_numbers_exact (n : Z) :
  (n < 0 -> sum_of_squares_of_natural_numbers n = Raises ValueError_non_negative) /\
  (0 <= n -> sum_squares_upto (Z.to_nat n) < 2 ^ 53 ->
   sum_of_squares_of_natural_numbers n = Returns (sum_squares_upto (Z.to_nat n))).
Proof.
  unfold sum_of_squares_of_natural_numbers. split.
  { intros Hn. destruct (Z.ltb_spec n 0) as [_|?]; [reflexivity|lia]. }
  intros Hn Hb.
  destruct (Z.ltb_spec n 0) as [?|_]; [lia|].
  pose proof (sum_squares_upto_closed (Z.to_nat n)) as Hc.
  rewrite Z2Nat.id in Hc by lia.
  replace (n * (n + 1) * (2 * n + 1)) with (sum_squares_upto (Z.to_nat n) * 6) by lia.
  rewrite int_truediv_divisible; [reflexivity|lia|].
  split; [apply sum_squares_upto_nonneg|exact Hb].
Qed.

Lemma sum_of_squares_of_natural_numbers_exact_witness :
  sum_of_squares_of_natural_numbers (-1) = Raises ValueError_non_negative /\
  sum_of_squares_of_natural_numbers 10 = Returns 385.
Proof.
  split.
  - apply (proj1 (sum_of_squares_of_natural_numbers_exact (-1))). reflexivity.
  - apply (proj2 (sum_of_squares_of_natural_numbers_exact 10));
      [discriminate|reflexivity].
Defined.

(** ** [num_combinations] *)

Lemma py_range_unit_step (start stop : Z) :
  py_range start stop 1
  = Ok (map (fun k => start + Z.of_nat k) (seq 0 (Z.to_nat (stop - start)))).
Proof.
  unfold py_range. cbn [Z.eqb Z.ltb Z.compare].
  rewrite Z.div_1_r. replace (stop - start + 1 - 1) with (stop - start) by lia.
  f_equal. apply map_ext. intros k. lia.
Qed.

Lemma foldM_product (l : list Z) (acc : Z) :
  foldM (fun a b => Ok (a * b)) l acc = Ok (fold_left Z.mul l acc).
Proof.
  revert acc. induction l as [|x l IH]; intros acc; [reflexivity|].
  cbn [foldM bind fold_left]. apply IH.
Qed.

Lemma fold_left_product_from (a : Z) (j m : nat) :
  fold_left Z.mul (map (fun k => a + Z.of_nat k) (seq j m)) (product_from a j)
  = product_from a (j + m).
Proof.
  revert j. induction m as [|m IH]; intros j.
  - now rewrite Nat.add_0_r.
  - cbn [seq map fold_left].
    change (product_from a j * (a + Z.of_nat j)) with (product_from a (S j)).
    rewrite IH. f_equal. lia.
Qed.

(** The product over a range: empty ranges have no product. *)
Lemma range_product_value (start stop : Z) :
  range_product start stop
  = if stop <=? start then Raise TypeError_reduce
    else Ok (product_from start (Z.to_nat (stop - start))).
Proof.
  unfold range_product. rewrite py_range_unit_step. cbn [bind].
  destruct (Z.leb_spec stop start) as [Hle|Hlt].
  - replace (Z.to_nat (stop - start)) with 0%nat by lia. reflexivity.
  - destruct (Z.to_nat (stop - start)) as [|m] eqn:Hm; [lia|].
    cbn [seq map py_reduce]. rewrite foldM_product, <- seq_shift, map_map.
    pose proof (fold_left_product_from start 1 m) as H.
    cbn [product_from] in H. rewrite Z.mul_1_l in H.
    rewrite <- (map_map S (fun k => start + Z.of_nat k)), seq_shift.
    f_equal. exact H.
Qed.

Lemma binomial_zero (n : nat) : binomial n 0 = 1.
Proof. now destruct n. Qed.

Lemma binomial_beyond (n k : nat) : (n < k)%nat -> binomial n k = 0.
Proof.
  revert k. induction n as [|n IH]; intros [|k] H; try lia; [reflexivity|].
  cbn [binomial]. rewrite !IH by lia. reflexivity.
Qed.

Lemma binomial_nonneg (n k : nat) : 0 <= binomial n k.
Proof.
  revert k. induction n as [|n IH]; intros [|k]; cbn [binomial]; try lia.
  pose proof (IH k). pose proof (IH (S k)). lia.
Qed.

(** [(k + 1) * C(n + 1, k + 1) = (n + 1) * C(n, k)]. *)
Lemma binomial_absorption (n k : nat) :
  Z.of_nat (S k) * binomial (S n) (S k) = Z.of_nat (S n) * binomial n k.
Proof.
  revert k. induction n as [|n IH]; intros k.
  - destruct k as [|k]; [reflexivity|].
    rewrite (binomial_beyond 1 (S (S k))), (binomial_beyond 0 (S k)) by lia. lia.
  - destruct k as [|k].
    + pose proof (IH 0%nat) as H0. cbn [binomial] in *.
      rewrite !binomial_zero, !Nat2Z.inj_succ in *. lia.
    + pose proof (IH k) as H1. pose proof (IH (S k)) as H2.
      cbn [binomial] in *. rewrite !Nat2Z.inj_succ in *. lia.
Qed.

(** The product of the [r] integers ending at [n] is [C(n, r) * r!]. *)
Lemma falling_product (n r : nat) :
  (r <= n)%nat ->
  product_from (Z.of_nat n - Z.of_nat r + 1) r = binomial n r * Z.of_nat (fact r).
Proof.
  revert n. induction r as [|r IH]; intros n Hr.
  - cbn. destruct n; reflexivity.
  - destruct n as [|n]; [lia|].
    cbn [product_from].
    replace (Z.of_nat (S n) - Z.of_nat (S r) + 1) with (Z.of_nat n - Z.of_nat r + 1) by lia.
    rewrite IH by lia.
    replace (Z.of_nat n - Z.of_nat r + 1 + Z.of_nat r) with (Z.of_nat (S n)) by lia.
    pose proof (binomial_absorption n r) as Ha.
    change (fact (S r)) with (fact r + r * fact r)%nat.
    rewrite Nat2Z.inj_add, Nat2Z.inj_mul, Nat2Z.inj_succ in *. nia.
Qed.

Lemma product_from_one (r : nat) : product_from 1 r = Z.of_nat (fact r).
Proof.
  induction r as [|r IH]; [reflexivity|].
  cbn [product_from]. rewrite IH.
  change (fact (S r)) with (fact r + r * fact r)%nat. lia.
Qed.

Lemma product_from_through_zero (a : Z) (k : nat) :
  a <= 0 -> 0 < a + Z.of_nat k -> product_from a k = 0.
Proof.
  intros Ha. induction k as [|k IH]; intros Hk; [lia|].
  cbn [product_from].
  destruct (Z.eq_dec (a + Z.of_nat k) 0) as [->|Hne]; [lia|].
  rewrite IH by lia. reflexivity.
Qed.

(** X4: for [n >= 0] and [r >= 1], [num_combinations n r] returns the
    binomial coefficient [C(n, r)] (which is 0 when [r > n]) as long as it is
    below [2^53]: the numerator is [C(n, r) * r!], the denominator is [r!],
    and the binary64 quotient of a multiple by its divisor is exact. *)
Theorem num_combinations_binomial (n r : Z) :
  0 <= n -> 1 <= r ->
  binomial (Z.to_nat n) (Z.to_nat r) < 2 ^ 53 ->
  num_combinations n r = Ok (binomial (Z.to_nat n) (Z.to_nat r)).
Proof.
  intros Hn Hr Hb. unfold num_combinations.
  rewrite !range_product_value.
  destruct (Z.leb_spec (n + 1) (n - r + 1)) as [?|_]; [lia|].
  destruct (Z.leb_spec (r + 1) 1) as [?|_]; [lia|].
  cbn [bind].
  replace (n + 1 - (n - r + 1)) with r by lia.
  replace (r + 1 - 1) with r by lia.
  rewrite product_from_one.
  pose proof (lt_O_fact (Z.to_nat r)) as Hf.
  destruct (Z_le_gt_dec r n) as [Hle|Hgt].
  - pose proof (falling_product (Z.to_nat n) (Z.to_nat r) ltac:(lia)) as Hp.
    rewrite !Z2Nat.id in Hp by lia. rewrite Hp.
    apply int_truediv_divisible; [lia|].
    split; [apply binomial_nonneg|exact Hb].
  - rewrite product_from_through_zero by lia.
    rewrite binomial_beyond by lia.
    unfold int_truediv.
    destruct (Z.eqb_spec (Z.of_nat (fact (Z.to_nat r))) 0) as [?|_]; [lia|].
    reflexivity.
Qed.

Lemma num_combinations_binomial_witness :
  num_combinations 5 2 = Ok 10 /\ num_combinations 3 5 = Ok 0.
Proof.
  split.
  - apply (num_combinations_binomial 5 2); first [discriminate | reflexivity].
  - apply (num_combinations_binomial 3 5); first [discriminate | reflexivity].
Defined.

(** X5: for [r <= 0] (choosing nothing) [num_combinations n r] raises
    [TypeError] for every [n]: the range of the numerator is empty and
    [reduce] has no initial value.  In particular [C(n, 0) = 1] is never
    returned. *)
Theorem num_combinations_no_selection (n r : Z) :
  r <= 0 -> num_combinations n r = Raise TypeError_reduce.
Proof.
  intros Hr. unfold num_combinations. rewrite range_product_value.
  destruct (Z.leb_spec (n + 1) (n - r + 1)) as [_|?]; [reflexivity|lia].
Qed.

Lemma num_combinations_no_selection_witness :
  num_combinations 5 0 = Raise TypeError_reduce.
Proof. apply (num_combinations_no_selection 5 0). discriminate. Defined.

(** ** Divisors up to the square root *)

Lemma sqrt_below (n : Z) : 1 < n -> Z.sqrt n < n.
Proof. intros H. apply Z.sqrt_lt_lin. lia. Qed.

(** A divisor strictly between 1 and [n] has a partner, and the smaller of
    the two is at most the square root. *)
Lemma small_divisor (n d : Z) :
  1 < d < n -> (d | n) ->
  exists m, 1 < m <= Z.sqrt n /\ (m | n) /\ (d = m \/ d = n / m).
Proof.
  intros Hd [q Hq].
  assert (Hq1 : 1 < q < n) by nia.
  assert (Hdiv : n / d = q) by (subst n; apply Z.div_mul; lia).
  assert (Hdiv' : n / q = d) by (subst n; rewrite Z.mul_comm; apply Z.div_mul; lia).
  destruct (Z_le_gt_dec d q) as [Hle|Hgt].
  - exists d. split; [|split; [exists q; exact Hq|now left]].
    split; [lia|]. apply Z.sqrt_le_square; nia.
  - exists q. split; [|split; [exists d; lia|right; lia]].
    split; [lia|]. apply Z.sqrt_le_square; nia.
Qed.

(** ** [is_prime] *)

Lemma no_divisor_in_value (num : Z) (idx : list Z) :
  Forall (fun i => i <> 0) idx ->
  no_divisor_in num idx = Ok (forallb (fun i => negb (num mod i =? 0)) idx).
Proof.
  intros H. induction H as [|i idx Hi _ IH]; [reflexivity|].
  cbn [no_divisor_in forallb]. unfold py_mod.
  destruct (Z.eqb_spec i 0) as [?|_]; [contradiction|]. cbn [bind].
  destruct (num mod i =? 0); [reflexivity|exact IH].
Qed.

Lemma odd_range_members (k i : Z) :
  In i (map (fun j => 3 + Z.of_nat j * 2) (seq 0 (Z.to_nat ((k + 1 - 3 + 2 - 1) / 2))))
  <-> 3 <= i <= k /\ i mod 2 = 1.
Proof.
  rewrite in_map_iff. split.
  - intros (j & <- & Hj). apply in_seq in Hj.
    assert (Hc : Z.of_nat j < (k + 1 - 3 + 2 - 1) / 2) by lia.
    pose proof (Z.mul_div_le (k + 1 - 3 + 2 - 1) 2 ltac:(lia)).
    split; [lia|].
    replace (3 + Z.of_nat j * 2) with (1 + (Z.of_nat j + 1) * 2) by lia.
    now rewrite Z.mod_add by lia.
  - intros [Hi Hodd]. exists (Z.to_nat ((i - 3) / 2)).
    pose proof (Z.div_mod i 2 ltac:(lia)) as Hdm. rewrite Hodd in Hdm.
    assert (Hh : (i - 3) / 2 = i / 2 - 1).
    { symmetry. apply Z.div_unique with (r := 0); lia. }
    split.
    + rewrite Z2Nat.id by lia. lia.
    + apply in_seq. split; [lia|].
      assert ((i - 3) / 2 < (k + 1 - 3 + 2 - 1) / 2); [|lia].
      replace (k + 1 - 3 + 2 - 1) with (k - 1) by lia. rewrite Hh.
      assert (i / 2 <= (k - 1) / 2) by (apply Z.div_le_lower_bound; lia). lia.
Qed.

Lemma odd_divisors_odd (n m : Z) : n mod 2 <> 0 -> (m | n) -> m mod 2 = 1.
Proof.
  intros Hn [q ->].
  pose proof (Z.mod_pos_bound m 2 ltac:(lia)) as Hm.
  destruct (Z.eq_dec (m mod 2) 0) as [H0|?]; [exfalso|lia].
  apply Hn. apply Z.mod_divide; [lia|].
  apply Z.mod_divide in H0; [|lia]. now apply Z.divide_mul_r.
Qed.

(** X6: for every [num] below [2^52] (negative numbers included) [is_prime]
    returns, and it returns [True] exactly when [num] is a prime number:
    trial division by 2 and by the odd numbers from 3 up to [int(sqrt(num))]
    finds a divisor of every composite number, and below [2^52] the float
    square root truncates to the integer square root. *)
Theorem is_prime_correct (num : Z) :
  num < 2 ^ 52 ->
  exists b, is_prime num = Returns b /\ (b = true <-> Z.prime num).
Proof.
  intros Hb. unfold is_prime.
  destruct (Z.ltb_spec num 2) as [Hsmall|Hge2].
  { exists false. split; [reflexivity|]. split; [discriminate|].
    intros Hp. apply Z.prime_ge_2 in Hp. lia. }
  destruct (Z.eqb_spec num 2) as [->|Hn2].
  { exists true. split; [reflexivity|]. split; [intros _; apply Z.prime_2|reflexivity]. }
  destruct (Z.eqb_spec num 3) as [->|Hn3].
  { exists true. split; [reflexivity|]. split; [intros _; apply Z.prime_3|reflexivity]. }
  cbn [orb].
  destruct (Z.eqb_spec (num mod 2) 0) as [Heven|Hodd].
  { exists false. split; [reflexivity|]. split; [discriminate|].
    intros [_ Hp]. exfalso.
    apply (Hp 2); [lia|]. apply Z.mod_divide; lia. }
  rewrite int_sqrt_exact by lia. cbn [outcome_bind].
  pose proof (sqrt_below num ltac:(lia)) as Hk.
  pose proof (Z.sqrt_nonneg num) as Hk0.
  set (k := Z.sqrt num) in *.
  unfold py_range. cbn [Z.eqb Z.ltb Z.compare bind].
  assert (Hnz : Forall (fun i => i <> 0)
                  (map (fun j => 3 + Z.of_nat j * 2)
                       (seq 0 (Z.to_nat ((k + 1 - 3 + 2 - 1) / 2))))).
  { apply Forall_forall. intros i Hi. apply odd_range_members in Hi. lia. }
  rewrite no_divisor_in_value by exact Hnz. cbn [lift].
  eexists. split; [reflexivity|].
  rewrite forallb_forall. split.
  - intros Hall. split; [lia|].
    intros d Hd Hdiv.
    destruct (small_divisor num d Hd Hdiv) as (m & Hm & Hmdiv & _). fold k in Hm.
    pose proof (odd_divisors_odd num m Hodd Hmdiv) as Hmodd.
    assert (Hm3 : 3 <= m).
    { destruct (Z.eq_dec m 2) as [->|?]; [discriminate Hmodd|lia]. }
    specialize (Hall m (proj2 (odd_range_members k m) (conj (conj Hm3 (proj2 Hm)) Hmodd))).
    apply Z.mod_divide in Hmdiv; [|lia]. rewrite Hmdiv in Hall. discriminate.
  - intros Hp i Hi. apply odd_range_members in Hi as [Hi _].
    destruct Hp as [_ Hp].
    destruct (Z.eqb_spec (num mod i) 0) as [H0|?]; [exfalso|reflexivity].
    apply (Hp i); [lia|]. apply Z.mod_divide; lia.
Qed.

Lemma is_prime_correct_witness :
  exists b, is_prime 97 = Returns b /\ (b = true <-> Z.prime 97).
Proof. apply (is_prime_correct 97). reflexivity. Defined.

(** ** [get_factors] *)

Lemma sorted_insert_In (x y : Z) (l : list Z) :
  In y (sorted_insert x l) <-> y = x \/ In y l.
Proof.
  induction l as [|z l IH]; cbn [sorted_insert].
  - cbn. intuition.
  - destruct (x <=? z); cbn [In]; [intuition|]. rewrite IH. intuition.
Qed.

Lemma py_sorted_In (y : Z) (l : list Z) : In y (py_sorted l) <-> In y l.
Proof.
  induction l as [|x l IH]; [reflexivity|].
  cbn [py_sorted fold_right]. fold (py_sorted l).
  rewrite sorted_insert_In, IH. cbn. intuition.
Qed.

Lemma sorted_insert_sorted (x : Z) (l : list Z) :
  StronglySorted Z.lt l -> ~ In x l -> StronglySorted Z.lt (sorted_insert x l).
Proof.
  intros Hs. induction Hs as [|z l Hs IH Hz]; intros Hx; cbn [sorted_insert].
  - constructor; constructor.
  - destruct (Z.leb_spec x z) as [Hle|Hgt].
    + assert (x < z) by (cbn in Hx; lia).
      constructor; [now constructor|].
      constructor; [assumption|].
      eapply Forall_impl; [|exact Hz]. intros a Ha. cbn in Ha. lia.
    + constructor; [apply IH; cbn in Hx; tauto|].
      apply Forall_forall. intros a Ha. apply sorted_insert_In in Ha as [->|Ha]; [lia|].
      rewrite Forall_forall in Hz. now apply Hz.
Qed.

Lemma py_sorted_sorted (l : list Z) : NoDup l -> StronglySorted Z.lt (py_sorted l).
Proof.
  intros H. induction H as [|x l Hx _ IH]; [constructor|].
  cbn [py_sorted fold_right]. fold (py_sorted l).
  apply sorted_insert_sorted; [exact IH|]. now rewrite py_sorted_In.
Qed.

Lemma set_add_In (x y : Z) (s : list Z) : In y (set_add x s) <-> y = x \/ In y s.
Proof.
  unfold set_add. destruct (existsb (Z.eqb x) s) eqn:E; [|cbn; intuition].
  split; [now right|]. intros [->|H]; [|exact H].
  apply existsb_exists in E as (z & Hz & Heq). apply Z.eqb_eq in Heq. now subst.
Qed.

Lemma set_add_NoDup (x : Z) (s : list Z) : NoDup s -> NoDup (set_add x s).
Proof.
  intros H. unfold set_add. destruct (existsb (Z.eqb x) s) eqn:E; [exact H|].
  constructor; [|exact H]. intros Hin.
  assert (existsb (Z.eqb x) s = true); [|congruence].
  apply existsb_exists. exists x. split; [exact Hin|apply Z.eqb_refl].
Qed.

(** The loop of [get_factors] over indices below [2^52]. *)
Lemma get_factors_loop (num : Z) (idx : list Z) (acc : list Z) :
  0 <= num < exact_quotient_bound ->
  Forall (fun i => 0 < i < exact_quotient_bound) idx ->
  NoDup acc ->
  exists s,
    foldM (fun factors i =>
             r <- py_mod num i ;;
             if r =? 0
             then let factors := set_add i factors in
                  q <- int_truediv num i ;;
                  Ok (set_add q factors)
             else Ok factors) idx acc = Ok s /\
    NoDup s /\
    forall d, In d s <->
              In d acc \/ exists i, In i idx /\ (i | num) /\ (d = i \/ d = num / i).
Proof.
  intros Hnum Hidx. revert acc.
  induction Hidx as [|i idx Hi _ IH]; intros acc Hnd.
  - exists acc. split; [reflexivity|]. split; [exact Hnd|].
    intros d. split; [now left|]. intros [H|(i & [] & _)]. exact H.
  - cbn [foldM]. unfold py_mod at 1.
    destruct (Z.eqb_spec i 0) as [?|_]; [lia|]. cbn [bind].
    destruct (Z.eqb_spec (num mod i) 0) as [Hdiv|Hndiv].
    + rewrite int_truediv_exact by lia. cbn [bind].
      destruct (IH (set_add (num / i) (set_add i acc))
                   (set_add_NoDup _ _ (set_add_NoDup _ _ Hnd)))
        as (s & Hs & Hnds & Hin).
      exists s. split; [exact Hs|]. split; [exact Hnds|].
      intros d. rewrite Hin, !set_add_In. cbn [In].
      apply Z.mod_divide in Hdiv; [|lia].
      split.
      * intros [[->|[->|H]]|(j & Hj & Hjd & Hd)].
        -- right. exists i. auto.
        -- right. exists i. auto.
        -- now left.
        -- right. exists j. auto.
      * intros [H|(j & [<-|Hj] & Hjd & Hd)].
        -- left. auto.
        -- left. destruct Hd as [->| ->]; auto.
        -- right. exists j. auto.
    + destruct (IH acc Hnd) as (s & Hs & Hnds & Hin).
      exists s. split; [exact Hs|]. split; [exact Hnds|].
      intros d. rewrite Hin. cbn [In].
      split.
      * intros [H|(j & Hj & Hjd & Hd)]; [now left|]. right. exists j. auto.
      * intros [H|(j & [<-|Hj] & Hjd & Hd)]; [now left| |right; exists j; auto].
        exfalso. apply Hndiv. apply Z.mod_divide; [lia|exact Hjd].
Qed.

(** X3: [get_factors num] raises its [ValueError] for a negative [num]; for
    [0 <= num < 2^52] it returns a strictly increasing list whose members are
    exactly the divisors [d] of [num] with [1 < d < num]: neither 1 nor [num]
    itself is listed, so the list is empty for 0, for 1 and for primes. *)
Theorem get_factors_proper_divisors (num : Z) :
  (num < 0 -> get_factors num = Raises ValueError_natural) /\
  (0 <= num < 2 ^ 52 ->
   exists l,
     get_factors num = Returns l /\
     StronglySorted Z.lt l /\
     forall d, In d l <-> 1 < d < num /\ (d | num)).
Proof.
  unfold get_factors. split.
  { intros Hn. destruct (Z.ltb_spec num 0) as [_|?]; [reflexivity|lia]. }
  intros Hnum.
  destruct (Z.ltb_spec num 0) as [?|_]; [lia|].
  rewrite int_sqrt_exact by lia. cbn [outcome_bind].
  rewrite py_range_unit_step. cbn [bind].
  pose proof (Z.sqrt_nonneg num) as Hk0.
  assert (Hk : Z.sqrt num <= num).
  { destruct (Z.eq_dec num 0) as [->|?]; [cbn; lia|].
    destruct (Z.eq_dec num 1) as [->|?]; [cbn; lia|].
    pose proof (sqrt_below num ltac:(lia)). lia. }
  set (k := Z.sqrt num) in *.
  set (idx := map (fun j => 2 + Z.of_nat j) (seq 0 (Z.to_nat (k + 1 - 2)))).
  assert (Hmem : forall i, In i idx <-> 2 <= i <= k).
  { intros i. unfold idx. rewrite in_map_iff. split.
    - intros (j & <- & Hj). apply in_seq in Hj. lia.
    - intros Hi. exists (Z.to_nat (i - 2)). split; [lia|]. apply in_seq. lia. }
  destruct (get_factors_loop num idx [] ltac:(unfold exact_quotient_bound; lia))
    as (s & Hs & Hnd & Hin).
  { apply Forall_forall. intros i Hi. apply Hmem in Hi.
    unfold exact_quotient_bound. lia. }
  { constructor. }
  cbv zeta in Hs. cbv zeta. rewrite Hs. cbn [bind lift].
  eexists. split; [reflexivity|]. split; [now apply py_sorted_sorted|].
  intros d. rewrite py_sorted_In, Hin. cbn [In]. split.
  - intros [[]|(i & Hi & Hdiv & Hd)]. apply Hmem in Hi.
    assert (Hn : 1 < num) by lia.
    pose proof (sqrt_below num Hn) as Hlt. fold k in Hlt.
    destruct Hdiv as [q Hq].
    assert (Hq1 : 1 < q < num) by nia.
    assert (Hquot : num / i = q) by (subst num; apply Z.div_mul; lia).
    destruct Hd as [->| ->].
    + split; [lia|]. exists q. exact Hq.
    + rewrite Hquot. split; [lia|]. exists i. lia.
  - intros [Hd Hdiv]. right.
    destruct (small_divisor num d Hd Hdiv) as (m & Hm & Hmdiv & Hdm). fold k in Hm.
    exists m. split; [apply Hmem; lia|]. split; assumption.
Qed.

Lemma get_factors_proper_divisors_witness :
  get_factors (-1) = Raises ValueError_natural /\
  exists l,
    get_factors 36 = Returns l /\
    StronglySorted Z.lt l /\
    forall d, In d l <-> 1 < d < 36 /\ (d | 36).
Proof.
  split.
  - apply (proj1 (get_factors_proper_divisors (-1))). reflexivity.
  - apply (proj2 (get_factors_proper_divisors 36)).
    split; [discriminate|reflexivity].
Defined.

(** * More on the large-number routines *)

(** ** Digit strings are determined by their value *)

Lemma digit_value_inj (c1 c2 : ascii) :
  is_digit c1 = true -> is_digit c2 = true ->
  digit_value c1 = digit_value c2 -> c1 = c2.
Proof.
  unfold is_digit, digit_value, digit_of_ascii. intros H1 H2 Hv.
  destruct (Z.leb_spec 48 (Z.of_nat (nat_of_ascii c1)));
    destruct (Z.leb_spec (Z.of_nat (nat_of_ascii c1)) 57);
    cbn [andb] in *; try discriminate.
  destruct (Z.leb_spec 48 (Z.of_nat (nat_of_ascii c2)));
    destruct (Z.leb_spec (Z.of_nat (nat_of_ascii c2)) 57);
    cbn [andb] in *; try discriminate.
  rewrite <- (ascii_nat_embedding c1), <- (ascii_nat_embedding c2).
  f_equal. lia.
Qed.

Lemma digits_same_length_unique (s1 s2 : string) :
  all_digits s1 = true -> all_digits s2 = true ->
  len s1 = len s2 -> value s1 = value s2 -> s1 = s2.
Proof.
  revert s2. induction s1 as [|c1 s1 IH]; intros [|c2 s2] H1 H2 Hl Hv;
    try reflexivity;
    try (rewrite len_String in Hl; change (len "") with 0 in Hl;
         match type of Hl with context [len ?s] => pose proof (len_nonneg s) end;
         lia).
  cbn [all_digits] in H1, H2.
  apply Bool.andb_true_iff in H1 as [Hc1 Hs1].
  apply Bool.andb_true_iff in H2 as [Hc2 Hs2].
  rewrite !len_String in Hl. rewrite !value_String in Hv.
  assert (Hl' : len s1 = len s2) by lia. rewrite Hl' in Hv.
  pose proof (value_range s1) as R1. pose proof (value_range s2) as R2.
  rewrite Hl' in R1.
  pose proof (digit_value_range c1). pose proof (digit_value_range c2).
  assert (0 < 10 ^ len s2) by (apply Z.pow_pos_nonneg; [lia|apply len_nonneg]).
  assert (Hd : digit_value c1 = digit_value c2) by nia.
  f_equal; [now apply digit_value_inj|].
  apply IH; try assumption. nia.
Qed.

Lemma stripped_lower_bound (s : string) :
  all_digits s = true -> lstrip0 s = s -> s <> "" -> 10 ^ (len s - 1) <= value s.
Proof.
  intros Hd Hs Hne. destruct s as [|c s']; [contradiction|].
  destruct (stripped_value _ c s' Hd Hs) as [-> Hc].
  rewrite len_String. replace (1 + len s' - 1) with (len s') by lia.
  pose proof (value_range s').
  assert (0 < 10 ^ len s') by (apply Z.pow_pos_nonneg; [lia|apply len_nonneg]).
  nia.
Qed.

(** Two digit strings without leading zeros that denote the same number are
    the same string. *)
Lemma stripped_digits_unique (s1 s2 : string) :
  all_digits s1 = true -> all_digits s2 = true ->
  lstrip0 s1 = s1 -> lstrip0 s2 = s2 ->
  value s1 = value s2 -> s1 = s2.
Proof.
  intros H1 H2 S1 S2 Hv.
  apply digits_same_length_unique; try assumption.
  pose proof (value_range s1) as R1. pose proof (value_range s2) as R2.
  pose proof (len_nonneg s1). pose proof (len_nonneg s2).
  pose proof (stripped_length s1 (len s2) H1 S1 ltac:(lia) ltac:(lia)).
  pose proof (stripped_length s2 (len s1) H2 S2 ltac:(lia) ltac:(lia)).
  lia.
Qed.

Lemma stripped_decimal_spec (n : Z) :
  0 <= n ->
  all_digits (stripped_decimal n) = true /\
  lstrip0 (stripped_decimal n) = stripped_decimal n /\
  value (stripped_decimal n) = n.
Proof.
  intros Hn. unfold stripped_decimal.
  destruct (py_str_value n Hn) as [Hd Hv].
  repeat split.
  - now apply all_digits_lstrip0.
  - apply lstrip0_idempotent.
  - now rewrite value_lstrip0.
Qed.

(** A stripped digit string is the stripped decimal of its value. *)
Lemma stripped_is_decimal (s : string) :
  all_digits s = true -> lstrip0 s = s -> s = stripped_decimal (value s).
Proof.
  intros Hd Hs.
  destruct (stripped_decimal_spec (value s) (proj1 (value_range s))) as (D & S & V).
  apply stripped_digits_unique; auto.
Qed.

Lemma stripped_decimal_positive (n : Z) : 0 < n -> stripped_decimal n = py_str n.
Proof. apply py_str_stripped. Qed.

(** ** [_make_chunks] *)

(** X7: on two digit strings [_make_chunks] returns two chunk lists of the
    same length, one more than the number of full chunks in the longer
    stripped operand; every chunk converts to a number in [[0, 10^w)] for the
    chunk width [w], and the chunks, least significant first, are the
    base-[10^w] digits of the operands: read from the most significant end
    they evaluate to the operands' values. *)
Theorem make_chunks_sound (cls : OpUtilsClass) (a b : string) :
  0 < _chunk_size cls < exact_quotient_bound ->
  all_digits a = true -> all_digits b = true ->
  len a < exact_quotient_bound -> len b < exact_quotient_bound ->
  exists xs ys : list Z,
    _make_chunks cls a b = Ok (map Ok xs, map Ok ys) /\
    List.length xs = List.length ys /\
    Z.of_nat (List.length xs)
      = Z.max (len (lstrip0 a)) (len (lstrip0 b)) / _chunk_size cls + 1 /\
    Forall (fun v => 0 <= v < 10 ^ _chunk_size cls) xs /\
    Forall (fun v => 0 <= v < 10 ^ _chunk_size cls) ys /\
    eval_msb (10 ^ _chunk_size cls) (rev xs) = value a /\
    eval_msb (10 ^ _chunk_size cls) (rev ys) = value b.
Proof.
  intros Hw Ha Hb Hla Hlb.
  pose proof (len_lstrip0 a) as Hsa. pose proof (len_lstrip0 b) as Hsb.
  pose proof (len_nonneg (lstrip0 a)) as Hna.
  destruct (chunk_values_spec cls a b a Hw Ha ltac:(lia) ltac:(lia)) as (Hna' & Hra & Hva).
  destruct (chunk_values_spec cls a b b Hw Hb ltac:(lia) ltac:(lia)) as (Hnb' & Hrb & Hvb).
  exists (rev (chunk_values cls (chunk_count cls a b) a)),
         (rev (chunk_values cls (chunk_count cls a b) b)).
  split; [now apply make_chunks_digits|].
  rewrite !length_rev, !rev_involutive.
  split; [congruence|]. split.
  - rewrite Hna'. unfold chunk_count.
    pose proof (Z.div_pos (Z.max (len (lstrip0 a)) (len (lstrip0 b))) (_chunk_size cls)
                  ltac:(lia) ltac:(lia)). lia.
  - repeat split; try assumption; now apply Forall_rev.
Qed.

Lemma make_chunks_sound_witness :
  exists xs ys : list Z,
    _make_chunks LargeNumberFirstDegreeOpUtils "12345678901234567890" "7"
    = Ok (map Ok xs, map Ok ys) /\
    List.length xs = List.length ys /\
    Z.of_nat (List.length xs)
      = Z.max (len (lstrip0 "12345678901234567890")) (len (lstrip0 "7"))
        / _chunk_size LargeNumberFirstDegreeOpUtils + 1 /\
    Forall (fun v => 0 <= v < 10 ^ _chunk_size LargeNumberFirstDegreeOpUtils) xs /\
    Forall (fun v => 0 <= v < 10 ^ _chunk_size LargeNumberFirstDegreeOpUtils) ys /\
    eval_msb (10 ^ _chunk_size LargeNumberFirstDegreeOpUtils) (rev xs)
    = value "12345678901234567890" /\
    eval_msb (10 ^ _chunk_size LargeNumberFirstDegreeOpUtils) (rev ys) = value "7".
Proof.
  apply (make_chunks_sound LargeNumberFirstDegreeOpUtils "12345678901234567890" "7");
    first [reflexivity | split; reflexivity].
Defined.

(** ** [add] *)

Lemma map_Ok_inj (xs ys : list Z) : map (@Ok Z) xs = map (@Ok Z) ys -> xs = ys.
Proof.
  revert ys. induction xs as [|x xs IH]; intros [|y ys] H; try discriminate;
    [reflexivity|].
  cbn [map] in H. injection H as -> H. f_equal. now apply IH.
Qed.

(** The chunk lists [_make_chunks] returns, read from the most significant
    end, are the chunk values of the operands. *)
Lemma make_chunks_values (cls : OpUtilsClass) (a b : string) (xs ys : list Z) :
  0 < _chunk_size cls < exact_quotient_bound ->
  all_digits a = true -> all_digits b = true ->
  len a < exact_quotient_bound -> len b < exact_quotient_bound ->
  _make_chunks cls a b = Ok (map Ok xs, map Ok ys) ->
  chunk_values cls (chunk_count cls a b) a = rev xs /\
  chunk_values cls (chunk_count cls a b) b = rev ys.
Proof.
  intros Hw Ha Hb Hla Hlb H.
  rewrite (make_chunks_digits cls a b Hw Ha Hb Hla Hlb) in H.
  injection H as Hx Hy.
  apply map_Ok_inj in Hx. apply map_Ok_inj in Hy.
  rewrite <- Hx, <- Hy, !rev_involutive. now split.
Qed.

(** X8: when [xs] and [ys] are the chunk lists [_make_chunks] returns for two
    digit strings and no aligned pair of chunks sums into one of the two
    windows where the float carry is rounded up, [add] returns the decimal
    digits of the exact sum of the operands without leading zeros (the empty
    string when the sum is 0). *)
Theorem add_exact_sum (a b : string) (xs ys : list Z) :
  all_digits a = true -> all_digits b = true ->
  len a < exact_quotient_bound -> len b < exact_quotient_bound ->
  _make_chunks LargeNumberAddOpUtils.cls a b = Ok (map Ok xs, map Ok ys) ->
  Forall (fun p => carry_rounds_up (fst p + snd p) = false) (combine xs ys) ->
  LargeNumberAddOpUtils.add a b = Ok (stripped_decimal (value a + value b)).
Proof.
  intros Ha Hb Hla Hlb Hmk Hwin.
  pose proof first_degree_width as Hw.
  change LargeNumberAddOpUtils.cls with LargeNumberFirstDegreeOpUtils in Hmk.
  set (cls := LargeNumberFirstDegreeOpUtils) in *.
  destruct (make_chunks_values cls a b xs ys Hw Ha Hb Hla Hlb Hmk) as [Hxs Hys].
  assert (Hlen : List.length xs = List.length ys).
  { pose proof (len_lstrip0 a). pose proof (len_lstrip0 b).
    destruct (chunk_values_spec cls a b a Hw Ha ltac:(lia) ltac:(lia)) as (Hna' & _).
    destruct (chunk_values_spec cls a b b Hw Hb ltac:(lia) ltac:(lia)) as (Hnb' & _).
    rewrite Hxs in Hna'. rewrite Hys in Hnb'. rewrite !length_rev in *. congruence. }
  assert (Hwin' : Forall (fun p => carry_rounds_up (fst p + snd p) = false)
                         (combine (chunk_values cls (chunk_count cls a b) a)
                                  (chunk_values cls (chunk_count cls a b) b))).
  { rewrite Hxs, Hys, <- rev_combine by exact Hlen. now apply Forall_rev. }
  destruct (add_exact_outside_rounding a b Ha Hb Hla Hlb Hwin')
    as (r & -> & Hd & Hs & Hv & _).
  f_equal. rewrite <- Hv. now apply stripped_is_decimal.
Qed.

Lemma add_exact_sum_witness :
  LargeNumberAddOpUtils.add "999999999999999990" "20"
  = Ok (stripped_decimal (value "999999999999999990" + value "20")).
Proof.
  apply (add_exact_sum "999999999999999990" "20" [999999999999999990; 0] [20; 0]);
    first [reflexivity | repeat constructor].
Defined.

(** X10: [add] strips leading zeros of both operands before anything else, so
    zeros written in front of either operand never change its result, for
    any two strings. *)
Theorem add_ignores_leading_zeros (j k : nat) (a b : string) :
  LargeNumberAddOpUtils.add (str_repeat j "0" ++ a) (str_repeat k "0" ++ b)
  = LargeNumberAddOpUtils.add a b.
Proof.
  unfold LargeNumberAddOpUtils.add, operate, _make_chunks.
  now rewrite !lstrip0_zeros_append.
Qed.

Lemma map_combine_swap {A : Type} (f : Z * Z -> A) (l1 l2 : list Z) :
  (forall x y, f (x, y) = f (y, x)) ->
  map f (combine l1 l2) = map f (combine l2 l1).
Proof.
  intros Hf. revert l2. induction l1 as [|x l1 IH]; intros [|y l2]; try reflexivity.
  cbn [combine map]. now rewrite Hf, IH.
Qed.

(** X9: on digit strings [add] always returns, and it returns the same string
    for both orders of the operands, also where a rounded-up carry makes that
    string differ from the sum. *)
Theorem add_commutative (a b : string) :
  all_digits a = true -> all_digits b = true ->
  len a < exact_quotient_bound -> len b < exact_quotient_bound ->
  exists r, LargeNumberAddOpUtils.add a b = Ok r /\
            LargeNumberAddOpUtils.add b a = Ok r.
Proof.
  intros Ha Hb Hla Hlb.
  pose proof first_degree_width as Hw.
  unfold LargeNumberAddOpUtils.add.
  change LargeNumberAddOpUtils.cls with LargeNumberFirstDegreeOpUtils.
  set (cls := LargeNumberFirstDegreeOpUtils) in *.
  set (op' := fun x y => ((x + y) mod 10 ^ 18,
                          (x + y) / 10 ^ 18
                          + (if carry_rounds_up (x + y) then 1 else 0))).
  rewrite (operate_digits cls _ op' a b)
    by (try assumption; intros; now apply add_op_chunks_carry_closed).
  rewrite (operate_digits cls _ op' b a)
    by (try assumption; intros; now apply add_op_chunks_carry_closed).
  eexists. split; [reflexivity|].
  assert (HK : chunk_count cls b a = chunk_count cls a b)
    by (unfold chunk_count; now rewrite Z.max_comm).
  rewrite HK. do 2 f_equal.
  apply (map_combine_swap (fun p => op' (fst p) (snd p))).
  intros x y. cbn [fst snd]. unfold op'. now rewrite (Z.add_comm y x).
Qed.

Lemma add_commutative_witness :
  exists r, LargeNumberAddOpUtils.add "999999999999999999" "98765432109876543210" = Ok r /\
            LargeNumberAddOpUtils.add "98765432109876543210" "999999999999999999" = Ok r.
Proof.
  apply (add_commutative "999999999999999999" "98765432109876543210"); reflexivity.
Defined.

(** ** [subtract] *)

Lemma written_chunks_sub_range (t0 : Z) (M : list (Z * Z)) :
  0 <= t0 < 10 ^ 18 ->
  Forall (fun p => 0 <= fst p < 10 ^ 18 /\ 0 <= snd p < 10 ^ 18) M ->
  borrow_absorbed (t0 =? 0) M = true ->
  Forall (fun n => 0 <= n < 10 ^ 18) (written_chunks t0 (map subtract_chunk M) 0).
Proof.
  intros Ht HM. revert t0 Ht.
  induction HM as [|[x y] M [Hx Hy] _ IH]; intros t0 Ht Hb.
  - cbn. constructor; [lia|constructor].
  - cbn [fst snd] in *. cbn [borrow_absorbed] in Hb.
    apply Bool.andb_true_iff in Hb as [Hb1 Hb2].
    apply Bool.negb_true_iff in Hb1.
    cbn [map subtract_chunk written_chunks].
    destruct (Z.ltb_spec x y) as [Hlt|Hge]; cbn [written_chunks].
    + rewrite Bool.andb_true_r in Hb1. apply Z.eqb_neq in Hb1.
      constructor; [lia|]. apply IH; [lia|].
      destruct (Z.eqb_spec x y) as [?|_]; [lia|].
      destruct (Z.eqb_spec (x + 10 ^ 18 - y) 0) as [?|_]; [lia|]. exact Hb2.
    + constructor; [lia|]. apply IH; [lia|].
      destruct (Z.eqb_spec x y) as [->|Hne].
      * now rewrite Z.sub_diag.
      * destruct (Z.eqb_spec (x - y) 0) as [?|_]; [lia|]. exact Hb2.
Qed.

Lemma subtract_chunk_difference (p : Z * Z) :
  fst (subtract_chunk p) + 10 ^ 18 * snd (subtract_chunk p) = fst p - snd p.
Proof.
  destruct p as [x y]. cbn [subtract_chunk fst snd].
  destruct (x <? y); cbn [fst snd]; lia.
Qed.

Lemma eval_msb_sub (B : Z) (xs ys : list Z) :
  List.length xs = List.length ys ->
  eval_msb B (map (fun p => fst p - snd p) (combine xs ys))
  = eval_msb B xs - eval_msb B ys.
Proof.
  revert ys. induction xs as [|x xs IH]; intros [|y ys] Hlen; try discriminate;
    [reflexivity|].
  injection Hlen as Hlen. cbn [combine map eval_msb fst snd].
  rewrite IH by exact Hlen. rewrite length_map, length_combine, <- Hlen, Nat.min_id.
  lia.
Qed.

(** [operate] with the subtraction chunk operation returns the exact
    difference when no borrow is taken right below a pair of equal chunks. *)
Lemma operate_subtract_exact (a b : string) (xs ys : list Z) :
  all_digits a = true -> all_digits b = true ->
  len a < exact_quotient_bound -> len b < exact_quotient_bound ->
  _make_chunks LargeNumberSubtractOpUtils.cls a b = Ok (map Ok xs, map Ok ys) ->
  borrow_absorbed true (rev (combine xs ys)) = true ->
  operate LargeNumberSubtractOpUtils.cls LargeNumberSubtractOpUtils._op_chunks a b
  = Ok (stripped_decimal (value a - value b)) /\
  value b <= value a.
Proof.
  intros Ha Hb Hla Hlb Hmk Hab.
  pose proof first_degree_width as Hw.
  change LargeNumberSubtractOpUtils.cls with LargeNumberFirstDegreeOpUtils in *.
  set (cls := LargeNumberFirstDegreeOpUtils) in *.
  destruct (make_chunks_values cls a b xs ys Hw Ha Hb Hla Hlb Hmk) as [Hxs Hys].
  rewrite (operate_digits cls _ (fun x y => subtract_chunk (x, y)))
    by (try assumption; intros; apply subtract_op_chunks_value).
  pose proof (len_lstrip0 a) as Hsa. pose proof (len_lstrip0 b) as Hsb.
  destruct (chunk_values_spec cls a b a Hw Ha ltac:(lia) ltac:(lia)) as (Hna & Hra & Hva).
  destruct (chunk_values_spec cls a b b Hw Hb ltac:(lia) ltac:(lia)) as (Hnb & Hrb & Hvb).
  set (K := chunk_count cls a b) in *.
  assert (Hlen : List.length xs = List.length ys).
  { rewrite Hxs in Hna. rewrite Hys in Hnb. rewrite !length_rev in *. congruence. }
  rewrite rev_combine, <- Hxs, <- Hys in Hab by exact Hlen.
  set (cx := chunk_values cls K a) in *. set (cy := chunk_values cls K b) in *.
  change (_chunk_size cls) with 18 in *.
  rewrite assemble_written, <- map_rev, rev_combine, !rev_involutive
    by (rewrite !length_rev; congruence).
  change (_chunk_size cls) with 18.
  rewrite (map_ext _ subtract_chunk) by (now intros [x y]).
  assert (HM : Forall (fun p => 0 <= fst p < 10 ^ 18 /\ 0 <= snd p < 10 ^ 18)
                      (combine cx cy)).
  { apply Forall_forall. intros [x y] Hin. cbn [fst snd]. split.
    - apply in_combine_l in Hin. rewrite Forall_forall in Hra. now apply Hra.
    - apply in_combine_r in Hin. rewrite Forall_forall in Hrb. now apply Hrb. }
  pose proof (written_chunks_sub_range 0 (combine cx cy) ltac:(lia) HM Hab) as Hrange.
  destruct (join_written_chunks _ Hrange) as (Hd & _ & Hv).
  set (S := join _) in *.
  assert (Hval : value S = value a - value b).
  { rewrite Hv, eval_written_chunks, map_map.
    rewrite (map_ext _ (fun p => fst p - snd p))
      by (intros p; apply subtract_chunk_difference).
    rewrite eval_msb_sub by congruence. rewrite Hva, Hvb. lia. }
  pose proof (value_range S) as HS.
  split; [|lia].
  f_equal. rewrite <- Hval, <- (value_lstrip0 S).
  apply stripped_is_decimal; [now apply all_digits_lstrip0|apply lstrip0_idempotent].
Qed.

(** X11: when [xs] and [ys] are the chunk lists of two digit strings that do
    not both denote zero, and no chunk of [a] is smaller than the chunk of
    [b] right below a pair of equal chunks (so that every borrow is taken
    from a chunk that can give it), then [b <= a] and [subtract a b] returns
    the decimal digits of the exact difference without leading zeros (the
    empty string when the operands are equal). *)
Theorem subtract_exact_difference (a b : string) (xs ys : list Z) :
  all_digits a = true -> all_digits b = true ->
  len a < exact_quotient_bound -> len b < exact_quotient_bound ->
  ~ (value a = 0 /\ value b = 0) ->
  _make_chunks LargeNumberSubtractOpUtils.cls a b = Ok (map Ok xs, map Ok ys) ->
  borrow_absorbed true (rev (combine xs ys)) = true ->
  LargeNumberSubtractOpUtils.subtract a b
  = Ok (stripped_decimal (value a - value b)) /\
  value b <= value a.
Proof.
  intros Ha Hb Hla Hlb Hz Hmk Hab.
  destruct (operate_subtract_exact a b xs ys Ha Hb Hla Hlb Hmk Hab) as [Hop Hle].
  split; [|exact Hle].
  unfold LargeNumberSubtractOpUtils.subtract,
    LargeNumberSubtractOpUtils._check_non_negative.
  rewrite !digits_not_signed by assumption. cbn [bind].
  destruct (is_smaller_digits a b Ha Hb) as [_ Hnz].
  destruct (Hnz Hz) as (smaller & -> & Hsm). cbn [bind].
  destruct smaller; [specialize (Hsm eq_refl); lia|exact Hop].
Qed.

Lemma subtract_exact_difference_witness :
  LargeNumberSubtractOpUtils.subtract "1000000000000000000" "1"
  = Ok (stripped_decimal (value "1000000000000000000" - value "1")) /\
  value "1" <= value "1000000000000000000".
Proof.
  apply (subtract_exact_difference "1000000000000000000" "1" [0; 1] [1; 0]);
    first [reflexivity | intros [H _]; vm_compute in H; discriminate H].
Defined.

(** X12: when [_is_smaller a b] answers [True] for two digit strings and the
    chunk lists of the swapped operands satisfy the borrow condition of X11,
    then [a < b] and [subtract a b] returns ['-'] followed by the decimal
    digits of [b - a]. *)
Theorem subtract_exact_negative (a b : string) (xs ys : list Z) :
  all_digits a = true -> all_digits b = true ->
  len a < exact_quotient_bound -> len b < exact_quotient_bound ->
  LargeNumberSubtractOpUtils._is_smaller a b = Ok true ->
  _make_chunks LargeNumberSubtractOpUtils.cls b a = Ok (map Ok xs, map Ok ys) ->
  borrow_absorbed true (rev (combine xs ys)) = true ->
  LargeNumberSubtractOpUtils.subtract a b
  = Ok ("-" ++ stripped_decimal (value b - value a)) /\
  value a < value b.
Proof.
  intros Ha Hb Hla Hlb Hsm Hmk Hab.
  destruct (operate_subtract_exact b a xs ys Hb Ha Hlb Hla Hmk Hab) as [Hop Hle].
  destruct (is_smaller_digits a b Ha Hb) as [Hzero Hnz].
  assert (Hz : ~ (value a = 0 /\ value b = 0)).
  { intros Hz. rewrite (Hzero Hz) in Hsm. discriminate. }
  destruct (Hnz Hz) as (smaller & Hs & Hlt).
  rewrite Hs in Hsm. injection Hsm as ->.
  split; [|now apply Hlt].
  unfold LargeNumberSubtractOpUtils.subtract,
    LargeNumberSubtractOpUtils._check_non_negative.
  rewrite !digits_not_signed by assumption. cbn [bind].
  rewrite Hs. cbn [bind]. rewrite Hop. reflexivity.
Qed.

Lemma subtract_exact_negative_witness :
  LargeNumberSubtractOpUtils.subtract "5" "12345"
  = Ok ("-" ++ stripped_decimal (value "12345" - value "5")) /\
  value "5" < value "12345".
Proof.
  apply (subtract_exact_negative "5" "12345" [12345] [5]); reflexivity.
Defined.

(** ** [multiply] on operands of one chunk *)

(** The carry [_mul_with_chunk] takes out of the product of two chunks below
    [10^8] is the integer quotient. *)
Lemma int_truediv_chunk_product (n : Z) :
  0 <= n < 10 ^ 16 -> int_truediv n (10 ^ 9) = Ok (n / 10 ^ 9).
Proof.
  intros Hn. destruct (Z.eq_dec n 0) as [->|Hne]; [reflexivity|].
  pose proof (quot_exponent_range n (10 ^ 9)) as HE. cbv zeta in HE.
  pose proof (quot_exponent_lower n (10 ^ 9) ltac:(lia) ltac:(lia)) as HEl.
  cbv zeta in HEl.
  assert (Hln : 0 <= Z.log2 n < 54).
  { split; [apply Z.log2_nonneg|]. apply Z.log2_lt_pow2; lia. }
  change (Z.log2 (10 ^ 9)) with 29 in HE.
  set (E := quot_exponent n (10 ^ 9)) in *.
  assert (HE23 : E <= 23).
  { destruct (Z_le_gt_dec E 23) as [?|Hgt]; [assumption|exfalso].
    replace (Z.max 0 E) with E in HEl by lia.
    replace (Z.max 0 (- E)) with 0 in HEl by lia.
    rewrite Z.pow_0_r, Z.mul_1_r in HEl.
    assert (2 ^ 24 <= 2 ^ E) by (apply Z.pow_le_mono_r; lia).
    change (2 ^ 24) with 16777216 in *. change (10 ^ 9) with 1000000000 in *.
    change (10 ^ 16) with 10000000000000000 in *. nia. }
  rewrite int_truediv_normal by (fold E; lia). fold E. f_equal.
  assert (HP : 2 ^ 29 <= 2 ^ (52 - E)) by (apply Z.pow_le_mono_r; lia).
  apply round_then_scale_down; lia.
Qed.

(** A number below [10^w] is written with exactly [w] digits. *)
Lemma zfill_str_digits (w n : Z) :
  0 < w -> 0 <= n < 10 ^ w ->
  all_digits (zfill (py_str n) w) = true /\
  len (zfill (py_str n) w) = w /\
  value (zfill (py_str n) w) = n.
Proof.
  intros Hw Hn. destruct (py_str_value n ltac:(lia)) as [Hd Hv].
  assert (Hlen : len (py_str n) <= w).
  { destruct (Z.eq_dec n 0) as [->|Hne]; [change (len (py_str 0)) with 1; lia|].
    apply stripped_length; [exact Hd|apply py_str_stripped; lia|lia|].
    rewrite Hv. lia. }
  repeat split.
  - now apply all_digits_zfill.
  - now apply len_zfill.
  - now rewrite value_zfill.
Qed.

(** The one chunk of an operand of at most 8 digits. *)
Lemma single_chunk (s : string) :
  all_digits s = true -> len s <= 8 ->
  exists c, chunks_at 9 (zfill s 9) 1 = [c] /\ py_int c = Ok (value s).
Proof.
  intros Hd Hl.
  assert (Hlen : String.length (zfill s 9) = (1 * 9)%nat).
  { pose proof (len_zfill s 9 ltac:(lia)) as Hz. unfold len in Hz. lia. }
  destruct (chunks_at_digits 9 (zfill s 9) 1 ltac:(lia)
              (all_digits_zfill s 9 Hd) Hlen) as (Hint & _ & Hval).
  rewrite chunks_at_succ in *. change (chunks_at 9 _ 0) with (@nil string) in *.
  set (c := take 9 (zfill s 9)) in *.
  exists c. split; [reflexivity|].
  cbn [map] in Hint. injection Hint as Hint. rewrite Hint. f_equal.
  cbn [map eval_msb List.length] in Hval.
  rewrite value_zfill in Hval by exact Hd.
  change (Z.of_nat 0) with 0 in Hval. rewrite Z.pow_0_r in Hval. lia.
Qed.

(** X13: for two digit strings of at most 8 digits each (one chunk, leading
    zeros allowed, the empty string counting as 0) [multiply] returns the
    decimal digits of the exact product without leading zeros (the empty
    string when the product is 0). *)
Theorem multiply_single_chunk_exact (a b : string) :
  all_digits a = true -> all_digits b = true ->
  len a <= 8 -> len b <= 8 ->
  LargeNumberMulOpUtils.multiply a b = Ok (stripped_decimal (value a * value b)).
Proof.
  intros Ha Hb Hla Hlb.
  unfold LargeNumberMulOpUtils.multiply, _compute_target_len.
  set (cls := LargeNumberMulOpUtils.cls).
  assert (Hw : 0 < _chunk_size cls < exact_quotient_bound) by (split; reflexivity).
  pose proof (len_nonneg a) as Hna. pose proof (len_nonneg b) as Hnb.
  rewrite compute_divisible_len_exact
    by (try exact Hw; unfold exact_quotient_bound; lia).
  change (_chunk_size cls) with 9.
  rewrite Z.div_small by lia. cbn [bind].
  change ((0 + 1) * 9) with (Z.of_nat 1 * _chunk_size cls).
  rewrite !pad_split_chunks by (change (_chunk_size cls) with 9; lia).
  cbn [bind]. change (Z.of_nat 1 * _chunk_size cls) with 9.
  change (Z.to_nat (_chunk_size cls)) with 9%nat.
  destruct (single_chunk a Ha Hla) as (ca & -> & Hca).
  destruct (single_chunk b Hb Hlb) as (cb & -> & Hcb).
  cbn [rev app mapM bind]. rewrite Hca. cbn [bind].
  unfold LargeNumberMulOpUtils._mul_with_chunk. cbn [foldM bind].
  rewrite Hcb. cbn [bind].
  change (_mod LargeNumberMulOpUtils.cls) with (10 ^ 9).
  change (_chunk_size LargeNumberMulOpUtils.cls) with 9.
  pose proof (value_range a) as Ra. pose proof (value_range b) as Rb.
  assert (Hxa : value a < 10 ^ 8).
  { apply Z.lt_le_trans with (10 ^ len a); [lia|]. apply Z.pow_le_mono_r; lia. }
  assert (Hxb : value b < 10 ^ 8).
  { apply Z.lt_le_trans with (10 ^ len b); [lia|]. apply Z.pow_le_mono_r; lia. }
  set (n := value b * value a + 0).
  assert (Hn : 0 <= n < 10 ^ 16).
  { unfold n. change (10 ^ 16) with (10 ^ 8 * 10 ^ 8). nia. }
  unfold py_mod. change (10 ^ 9 =? 0) with false. cbn [bind app].
  rewrite int_truediv_chunk_product by exact Hn. cbn [bind rev app].
  cbn [enumerate enumerate_from map py_reduce foldM].
  change (str_mul (0 * 9) "0") with "". rewrite append_empty_r.
  change (join [zfill (py_str (n mod 10 ^ 9)) 9])
    with (zfill (py_str (n mod 10 ^ 9)) 9).
  f_equal.
  pose proof (Z.div_mod n (10 ^ 9) ltac:(lia)) as Hdm.
  pose proof (Z.mod_pos_bound n (10 ^ 9) ltac:(lia)) as Hr.
  assert (Hq : 0 <= n / 10 ^ 9) by (apply Z.div_pos; lia).
  destruct (py_str_value (n / 10 ^ 9) Hq) as [Hdq Hvq].
  destruct (zfill_str_digits 9 (n mod 10 ^ 9) ltac:(lia) Hr) as (Hdr & Hlr & Hvr).
  set (S := py_str (n / 10 ^ 9) ++ zfill (py_str (n mod 10 ^ 9)) 9).
  assert (HdS : all_digits S = true) by (unfold S; now rewrite all_digits_append, Hdq, Hdr).
  assert (HvS : value S = value a * value b).
  { unfold S. rewrite value_append, Hvq, Hvr, Hlr. unfold n in *. lia. }
  rewrite <- HvS, <- (value_lstrip0 S).
  apply stripped_is_decimal; [now apply all_digits_lstrip0|apply lstrip0_idempotent].
Qed.

Lemma multiply_single_chunk_exact_witness :
  LargeNumberMulOpUtils.multiply "12345678" "87654321"
  = Ok (stripped_decimal (value "12345678" * value "87654321")).
Proof.
  apply (multiply_single_chunk_exact "12345678" "87654321");
    first [reflexivity | discriminate].
Defined.

(** ** [large_number_pow] at small exponents *)

Lemma parse_nonempty_digits_value (s : string) :
  nonempty_digits s = true -> parse_nonempty_digits s = Ok (value s).
Proof.
  destruct s as [|c s]; [discriminate|]. cbn [nonempty_digits]. intros H.
  unfold parse_nonempty_digits. now rewrite parse_digits_value.
Qed.

(** On a decimal literal [int] returns the number it denotes. *)
Lemma py_int_literal (s : string) :
  decimal_literal s = true -> py_int s = Ok (literal_value s).
Proof.
  unfold decimal_literal. intros H. apply Bool.andb_true_iff in H as [_ H].
  destruct s as [|c s]; [discriminate H|].
  destruct (ascii_dec c "-") as [->|Hm].
  { cbn [py_int literal_value]. now rewrite parse_nonempty_digits_value. }
  destruct (ascii_dec c "+") as [->|Hp].
  { cbn [py_int literal_value]. now rewrite parse_nonempty_digits_value. }
  assert (Hd : nonempty_digits (String c s) = true).
  { revert H. ascii_cases c; first [contradiction | exact (fun H => H)]. }
  replace (literal_value (String c s)) with (value (String c s))
    by (ascii_cases c; first [contradiction | reflexivity]).
  rewrite <- (parse_nonempty_digits_value _ Hd).
  ascii_cases c; first [contradiction | reflexivity].
Qed.

(** X15: when the exponent is a decimal literal (an optional sign, then at
    least one ASCII digit; at most 4300 characters) that denotes [n],
    [large_number_pow] raises [TypeError] for every [n <= 0] (negative
    exponents as well as 0), returns the base string unchanged and unchecked
    for [n = 1], and is one call of [multiply] on the base for [n = 2]. *)
Theorem power_small_exponents (num exp : string) :
  decimal_literal exp = true ->
  (literal_value exp <= 0 -> large_number_pow num exp = Raise TypeError_reduce) /\
  (literal_value exp = 1 -> large_number_pow num exp = Ok num) /\
  (literal_value exp = 2 ->
   large_number_pow num exp = LargeNumberMulOpUtils.multiply num num).
Proof.
  intros Hl. unfold large_number_pow, LargeNumberOpsHelper.large_number_pow.
  rewrite (py_int_literal exp Hl). cbn [bind]. repeat split.
  - intros Hle. replace (Z.to_nat (literal_value exp)) with 0%nat by lia. reflexivity.
  - intros ->. reflexivity.
  - intros ->. change (Z.to_nat 2) with 2%nat. cbn [repeat py_reduce foldM bind].
    now destruct (LargeNumberMulOpUtils.multiply num num).
Qed.

Lemma power_small_exponents_witness :
  large_number_pow "12" "-3" = Raise TypeError_reduce /\
  large_number_pow "12" "+1" = Ok "12" /\
  large_number_pow "12" "02" = LargeNumberMulOpUtils.multiply "12" "12".
Proof.
  split; [|split].
  - apply (proj1 (power_small_exponents "12" "-3" eq_refl)). discriminate.
  - apply (proj1 (proj2 (power_small_exponents "12" "+1" eq_refl))). reflexivity.
  - apply (proj2 (proj2 (power_small_exponents "12" "02" eq_refl))). reflexivity.
Defined.
